(** * pyCADD ensemble docking: mapping builder, failure ledger, task runner

    Shallow embedding of [pyCADD/Dock/ensemble.py] and of the parallel
    runner of [pyCADD/utils/tool.py].

    Python values are modelled as follows.
    - [str] is [string]; a character is an [ascii], that is a code point
      below 256.
    - A list is a [list]; a [set] of strings is a [gset string], and the
      order in which Python iterates over a set is left open (class
      [SetIteration]).
    - An attribute that starts as [None] is an [option].
    - A call that may raise returns a [result]; a method that also
      changes [self] or the file system runs in the monad [M], which
      keeps the changes made before the exception.
    - The file system is a finite map from paths to the text of the
      regular files; directories are not tracked.
    - [multiprocssing_run] of [tool.py], a process pool, is a step
      relation whose steps are the callbacks in the order in which
      tasks complete.  The stages of the console, which call the pool
      under the name [_multiprocssing_run], are stated for any pool. *)

From Stdlib Require Import Ascii String DecimalString DecimalNat DecimalZ.
From stdpp Require Import gmap strings list.

Local Open Scope string_scope.
Local Open Scope list_scope.

(** ** Exceptions and results *)

Inductive exn : Type :=
| RuntimeError (msg : string)
| FileNotFoundError (msg : string)
| TypeError (msg : string)
| ValueError (msg : string)
| TimeoutError (msg : string)
| KeyError (key : string)
| OtherError (msg : string).

Inductive result (A : Type) : Type :=
| Ok (a : A)
| Raise (e : exn).
Arguments Ok {A} a.
Arguments Raise {A} e.

#[global] Instance result_ret : MRet result := λ A a, Ok a.
#[global] Instance result_bind : MBind result := λ A B k r,
  match r with
  | Ok a => k a
  | Raise e => Raise e
  end.

(** A list comprehension whose body may raise. *)
Fixpoint rmapM {A B} (f : A → result B) (l : list A) : result (list B) :=
  match l with
  | [] => Ok []
  | a :: l' => b ← f a; bs ← rmapM f l'; Ok (b :: bs)
  end.

(** Stateful code: the state survives an exception. *)
Definition M (S A : Type) : Type := S → result A * S.

#[global] Instance M_ret {S} : MRet (M S) := λ A a s, (Ok a, s).
#[global] Instance M_bind {S} : MBind (M S) := λ A B k m s,
  match m s with
  | (Ok a, s') => k a s'
  | (Raise e, s') => (Raise e, s')
  end.

Definition raise {S A} (e : exn) : M S A := λ s, (Raise e, s).
Definition lift {S A} (r : result A) : M S A := λ s, (r, s).
Definition get {S} : M S S := λ s, (Ok s, s).
Definition modify {S} (f : S → S) : M S unit := λ s, (Ok tt, f s).

(** A [for] loop over [l] that threads the local variables [acc]. *)
Fixpoint for_each {S A B} (l : list A) (body : B → A → M S B) (acc : B) : M S B :=
  match l with
  | [] => mret acc
  | a :: l' => acc' ← body acc a; for_each l' body acc'
  end.

(** [len(x)] where [x] may be [None]. *)
Definition py_len {A} (x : option (list A)) : result nat :=
  match x with
  | Some l => Ok (length l)
  | None => Raise (TypeError "object of type 'NoneType' has no len()")
  end.

(** [x in l] where [l] may be [None]. *)
Definition py_in {A} `{EqDecision A} (x : A) (l : option (list A)) : result bool :=
  match l with
  | Some l => Ok (bool_decide (x ∈ l))
  | None => Raise (TypeError "argument of type 'NoneType' is not iterable")
  end.

(** ** Python string operations *)

Module Str.

Definition comma : ascii := ","%char.
Definition LF : ascii := Ascii.ascii_of_nat 10.
Definition CR : ascii := Ascii.ascii_of_nat 13.

(** [sep.join(l)] *)
Definition join (sep : string) (l : list string) : string :=
  String.concat sep l.

(** [s.split(sep)] for a one-character separator. *)
Fixpoint split (sep : ascii) (s : string) : list string :=
  match s with
  | EmptyString => [EmptyString]
  | String c s' =>
      if decide (c = sep) then EmptyString :: split sep s'
      else match split sep s' with
           | [] => [String c EmptyString]
           | w :: ws => String c w :: ws
           end
  end.

(** The line boundaries of [str.splitlines] among the code points
    below 256: LF, VT, FF, CR, FS, GS, RS and NEL. *)
Definition is_linebreak (c : ascii) : bool :=
  bool_decide (Ascii.nat_of_ascii c ∈ [10; 11; 12; 13; 28; 29; 30; 133]).

(** [s.splitlines()]: CR LF counts as one boundary, and a boundary at
    the very end of the string opens no further line. *)
Fixpoint splitlines (s : string) : list string :=
  match s with
  | EmptyString => []
  | String c s' =>
      if is_linebreak c then
        match s' with
        | String c' s'' =>
            if bool_decide (c = CR) && bool_decide (c' = LF)
            then EmptyString :: splitlines s''
            else EmptyString :: splitlines s'
        | EmptyString => [EmptyString]
        end
      else match splitlines s' with
           | [] => [String c EmptyString]
           | w :: ws => String c w :: ws
           end
  end.

(** What [f.read()] returns for a file opened in text mode: the
    universal-newlines translation turns CR LF and a lone CR into LF. *)
Fixpoint universal_newlines (s : string) : string :=
  match s with
  | EmptyString => EmptyString
  | String c s' =>
      if bool_decide (c = CR) then
        match s' with
        | String c' s'' =>
            if bool_decide (c' = LF) then String LF (universal_newlines s'')
            else String LF (universal_newlines s')
        | EmptyString => String LF EmptyString
        end
      else String c (universal_newlines s')
  end.

(** [c in s] for a character [c]. *)
Fixpoint contains (c : ascii) (s : string) : bool :=
  match s with
  | EmptyString => false
  | String c' s' => bool_decide (c' = c) || contains c s'
  end.

Fixpoint has_linebreak (s : string) : bool :=
  match s with
  | EmptyString => false
  | String c s' => is_linebreak c || has_linebreak s'
  end.

(** [s.replace(c, t)] for a one-character pattern: every occurrence. *)
Fixpoint replace (c : ascii) (t : string) (s : string) : string :=
  match s with
  | EmptyString => EmptyString
  | String c' s' =>
      if decide (c' = c) then t +:+ replace c t s'
      else String c' (replace c t s')
  end.

(** [str(n)] for a non-negative integer. *)
Definition of_nat (n : nat) : string :=
  NilEmpty.string_of_uint (Nat.to_uint n).

(** [str(z)] for an integer. *)
Definition of_Z (z : Z) : string :=
  NilEmpty.string_of_int (Z.to_int z).

(** [os.path.basename(p)] *)
Definition basename (p : string) : string :=
  List.last (split "/"%char p) EmptyString.

Definition ends_with_slash (s : string) : bool :=
  match String.rev s with
  | String c _ => bool_decide (c = "/"%char)
  | EmptyString => false
  end.

(** [os.path.join(a, b)] on a POSIX system. *)
Definition path_join (a b : string) : string :=
  match b with
  | String "/"%char _ => b
  | _ => if bool_decide (a = "") || ends_with_slash a then a +:+ b
         else a +:+ "/" +:+ b
  end.

(** [repr(s)]: between apostrophes, or between quotation marks when
    [s] holds an apostrophe and no quotation mark; the quote in use and
    the backslash are escaped, and so is every code point that is not
    printable. *)
Definition apostrophe : ascii := Ascii.ascii_of_nat 39.
Definition quotation : ascii := Ascii.ascii_of_nat 34.
Definition backslash : ascii := Ascii.ascii_of_nat 92.

Definition hex_digit (n : nat) : ascii :=
  Ascii.ascii_of_nat (if decide (n < 10)%nat then 48 + n else 87 + n).

(** [str.isprintable] on one code point below 256. *)
Definition is_printable (c : ascii) : bool :=
  let n := Ascii.nat_of_ascii c in
  bool_decide (32 ≤ n < 127)%nat || bool_decide ((161 ≤ n)%nat ∧ n ≠ 173).

Definition repr_char (quote c : ascii) : string :=
  let n := Ascii.nat_of_ascii c in
  if bool_decide (c = quote ∨ c = backslash) then String backslash (String c "")
  else if bool_decide (n = 9) then String backslash "t"
  else if bool_decide (n = 10) then String backslash "n"
  else if bool_decide (n = 13) then String backslash "r"
  else if is_printable c then String c ""
  else String backslash
         (String "x"%char
            (String (hex_digit (n `div` 16)) (String (hex_digit (n `mod` 16)) ""))).

Fixpoint escape (quote : ascii) (s : string) : string :=
  match s with
  | EmptyString => EmptyString
  | String c s' => repr_char quote c +:+ escape quote s'
  end.

Definition repr (s : string) : string :=
  let quote :=
    if contains apostrophe s && negb (contains quotation s) then quotation
    else apostrophe in
  String quote (escape quote s +:+ String quote "").

End Str.

(** [str(e)]: the message; for a [KeyError], [repr] of the key. *)
Definition exn_str (e : exn) : string :=
  match e with
  | RuntimeError m | FileNotFoundError m | TypeError m
  | ValueError m | TimeoutError m | OtherError m => m
  | KeyError key => Str.repr key
  end.

(** ** Data model

    The classes [GridFile], [LigandFile] and [DockResultFile] live in
    [pyCADD/Dock/common.py]; the records below carry the attributes that
    [ensemble.py] reads from them, under the names it uses. *)

(** A value of [structure.property]. *)
Inductive value : Type :=
| Bool (b : bool)
| Int (z : Z)
| Text (s : string).

(** [str(v)], as an f-string renders it. *)
Definition value_str (v : value) : string :=
  match v with
  | Bool true => "True"
  | Bool false => "False"
  | Int z => Str.of_Z z
  | Text s => s
  end.

Module Structure.
Record t : Type := mk { property : gmap string value }.
End Structure.

Module GridFile.
Record t : Type := mk {
  pdbid : string;
  ligand : string;            (* read by [_creat_mapping] *)
  internal_ligand : string;   (* read by [multi_dock] *)
  file_path : string
}.
End GridFile.

Module LigandFile.
Record t : Type := mk {
  file_path : string;
  file_dir : string;
  file_name : string;
  ligand_name : string;
  structures : list Structure.t
}.
End LigandFile.

Module DockResultFile.
Record t : Type := mk {
  pdbid : string;
  internal_ligand_name : string;
  docking_ligand_name : string;
  file_path : string
}.
End DockResultFile.

Module MinimizedFile.
Record t : Type := mk { file_path : string }.
End MinimizedFile.

(** A failure record: [(pdbid, internal_lig, docking_lig)]. *)
Abbreviation triple := (string * string * string)%type.

Abbreviation mapping_item := (GridFile.t * LigandFile.t)%type.

(** The file system: path to text. *)
Abbreviation FS := (gmap string string).

(** What [ensemble.py] takes from its collaborators: the constructors
    [LigandFile(path)] and [DockResultFile(path)], and the text that
    [structure.write] puts into a file. *)
Class Common : Type := {
  LigandFile_new : string → LigandFile.t;
  DockResultFile_new : string → DockResultFile.t;
  Structure_write : Structure.t → string
}.

(** Python leaves the order of [list(a_set)] open: any enumeration of
    the elements without repetition. *)
Class SetIteration : Type := {
  iter_set : gset string → list string;
  iter_set_perm : ∀ s, iter_set s ≡ₚ elements s
}.

Definition elements_iteration : SetIteration :=
  {| iter_set := elements; iter_set_perm := λ s, reflexivity (elements s) |}.

(** ** tool.py *)

(** [NUM_PARALLEL = multiprocessing.cpu_count() // 4 * 3] *)
Definition NUM_PARALLEL (cpu_count : Z) : Z := cpu_count `div` 4 * 3.

(** Where the alarm can still go off once the operation is back:
    [_func_timeout] arms it and never disarms it.  Inside the [try] of
    [_func_timeout]; in [_func_timeout] after the [try]; or in the
    worker before the result is on its way, where the pool then gets
    [reported], or nothing when the worker dies of it. *)
Inductive strike : Type :=
| InTry
| InReturn
| InWorker (reported : option exn).

(** What happens to the task of one item.
    - [Finishes secs out]: left alone the operation returns or raises
      after [secs] whole seconds; the [TimeoutError] that the alarm
      handler raises inside it passes through it; and the worker is
      done with the task before an alarm still pending goes off.
    - [Hangs]: left alone the operation never comes back; the
      [TimeoutError] of the handler passes through it.
    - [Catches alone after]: left alone the operation ends as [alone]
      says ([None]: never); when the handler raises [TimeoutError]
      inside it, the operation catches the exception and then ends with
      [after] ([None]: never).
    - [Overtaken secs out where_]: the operation returns or raises
      after [secs] seconds as in [Finishes], and an alarm still pending
      at that moment goes off at [where_].
    - [Unsent reported]: the task does not reach a worker: pickling it
      raises [reported] in the parent, or, for [None], the worker
      cannot rebuild it and dies. *)
Inductive behaviour (R : Type) : Type :=
| Finishes (secs : nat) (out : result R)
| Hangs
| Catches (alone : option (nat * result R)) (after : option (result R))
| Overtaken (secs : nat) (out : result R) (where_ : strike)
| Unsent (reported : option exn).
Arguments Finishes {R} secs out.
Arguments Hangs {R}.
Arguments Catches {R} alone after.
Arguments Overtaken {R} secs out where_.
Arguments Unsent {R} reported.

(** How what a call ends with, a value or an exception, fares on its
    way from the worker process to the parent.  It arrives; or pickle
    refuses it in the worker, which sends [reported], a
    [MaybeEncodingError], in its place; or it never arrives: the parent
    cannot rebuild it, which ends the thread that handles the results,
    or it is an exception that the worker does not catch. *)
Inductive fate : Type :=
| Arrives
| Refused (reported : exn)
| Vanishes.

(** What the parent gets for a task: a result for [callback], an
    exception for [error_callback], or nothing, because the call never
    returns and keeps its worker, or because the task is lost. *)
Inductive delivery (R : Type) : Type :=
| Result (r : R)
| Failure (e : exn)
| Stuck
| Gone.
Arguments Result {R} r.
Arguments Failure {R} e.
Arguments Stuck {R}.
Arguments Gone {R}.

Inductive level : Type := DEBUG | INFO.

Record pool_state (I R : Type) : Type := PoolState {
  pending : list I;                  (* submitted, callback not yet run *)
  returns : list R;
  log : list (level * string);
  completed : nat                    (* the progress bar *)
}.
Arguments PoolState {I R}.
Arguments pending {I R}.
Arguments returns {I R}.
Arguments log {I R}.
Arguments completed {I R}.

Section runner.
Context {I R : Type}.
(** [func.__name__], [str(item)], what becomes of the task of each
    item, and how the outcome of a call travels to the parent. *)
Variable func_name : string.
Variable item_str : I → string.
Variable func : I → behaviour R.
Variable transport : result R → fate.
(** The keyword arguments, each value rendered by [str]. *)
Variable kwargs : list (string * string).

Definition error_info (timeout : nat) (item : I) : string :=
  let args_list := [item_str item] in
  let kwargs_list := map (λ kv, kv.1 +:+ "=" +:+ kv.2) kwargs in
  let error_info :=
    "Task timed out after " +:+ Str.of_nat timeout +:+ " seconds: "
    +:+ func_name +:+ "(" +:+ Str.join ", " args_list +:+ ")" in
  match kwargs_list with
  | [] => error_info
  | _ => Str.replace ")"%char (", " +:+ Str.join ", " kwargs_list +:+ ")") error_info
  end.

(** The [except TimeoutError] clause: a [TimeoutError] that comes out
    of [func], from the alarm or not, is raised again with
    [error_info]. *)
Definition except_clause (timeout : nat) (item : I) (out : result R) : result R :=
  match out with
  | Raise (TimeoutError _) => Raise (TimeoutError (error_info timeout item))
  | _ => out
  end.

(** [_func_timeout(func, item, timeout=timeout, **kwargs)], in the
    worker: what the call ends with, [None] for a call that never
    returns.  [signal.alarm(timeout)] arms the alarm for [timeout > 0]
    and arms nothing for [0]; the handler raises [TimeoutError()]
    wherever the worker is at that moment.  Inside [func], which also
    happens to a call that needs the whole [timeout], the exception
    reaches the [except] clause unless [func] catches it.  Once [func]
    is back with a value the alarm is still armed: going off inside the
    [try] it reaches the [except] clause, going off after it the
    [TimeoutError()], which carries no message, leaves the function.
    (The task of an [Unsent] item is never called.) *)
Definition _func_timeout (item : I) (timeout : nat) : option (result R) :=
  let alarm_first secs := bool_decide (0 < timeout ≤ secs) in
  let timed_out : result R := Raise (TimeoutError (error_info timeout item)) in
  match func item with
  | Finishes secs out =>
      if alarm_first secs then Some timed_out
      else Some (except_clause timeout item out)
  | Hangs =>
      if bool_decide (0 < timeout) then Some timed_out else None
  | Catches alone after =>
      let interrupted :=
        match alone with
        | Some (secs, _) => alarm_first secs
        | None => bool_decide (0 < timeout)
        end in
      if interrupted then except_clause timeout item <$> after
      else (λ ending : nat * result R, except_clause timeout item ending.2) <$> alone
  | Overtaken secs out where_ =>
      if alarm_first secs then Some timed_out
      else if bool_decide (0 < timeout) then
        match out, where_ with
        | Ok _, InTry => Some timed_out
        | Ok _, InReturn => Some (Raise (TimeoutError ""))
        | _, _ => Some (except_clause timeout item out)
        end
      else Some (except_clause timeout item out)
  | Unsent _ => None
  end.

(** The worker sends what the call ended with. *)
Definition send (out : result R) : delivery R :=
  match transport out with
  | Arrives => match out with Ok r => Result r | Raise e => Failure e end
  | Refused reported => Failure reported
  | Vanishes => Gone
  end.

(** [pool.apply_async(_func_timeout, (func, item), ...)]: what the
    parent gets for the task of [item]. *)
Definition worker (item : I) (timeout : nat) : delivery R :=
  let called :=
    match _func_timeout item timeout with
    | Some out => send out
    | None => Stuck
    end in
  match func item with
  | Unsent (Some exception) => Failure exception
  | Unsent None => Gone
  | Overtaken secs _ (InWorker reported) =>
      if bool_decide (secs < timeout)
      then match reported with Some exception => Failure exception | None => Gone end
      else called
  | _ => called
  end.

(** A task keeps one of the [num_parallel] workers from the tasks
    behind it until its callback has run; a task that never reached a
    worker, or that is lost, keeps none. *)
Definition holds_worker (timeout : nat) (item : I) : bool :=
  match func item, worker item timeout with
  | Unsent _, _ => false
  | _, Gone => false
  | _, _ => true
  end.

Definition success_handler (st : pool_state I R) (result : R) : pool_state I R :=
  PoolState (pending st) (returns st ++ [result]) (log st) (S (completed st)).

Definition error_handler (st : pool_state I R) (exception : exn) : pool_state I R :=
  PoolState (pending st) (returns st)
    (log st ++ [(DEBUG, "Multiprocessing Run Warnning: " +:+ exn_str exception)])
    (S (completed st)).

Definition take_out (l1 l2 : list I) (st : pool_state I R) : pool_state I R :=
  PoolState (l1 ++ l2) (returns st) (log st) (completed st).

(** One task completes and its callback runs.  The pool hands the
    tasks to its workers in the order of submission, so the task that
    completes has fewer than [num_parallel] tasks before it that hold a
    worker; which of these completes first is open.  The error of a
    task that could not be pickled is reported by the thread that
    sends the tasks, whatever the workers are doing. *)
Inductive pool_step (num_parallel timeout : nat) : pool_state I R → pool_state I R → Prop :=
| step_success st l1 item l2 result :
    pending st = l1 ++ item :: l2 →
    length (filter (λ before, holds_worker timeout before = true) l1) < num_parallel →
    worker item timeout = Result result →
    pool_step num_parallel timeout st (success_handler (take_out l1 l2 st) result)
| step_error st l1 item l2 exception :
    pending st = l1 ++ item :: l2 →
    length (filter (λ before, holds_worker timeout before = true) l1) < num_parallel →
    worker item timeout = Failure exception →
    pool_step num_parallel timeout st (error_handler (take_out l1 l2 st) exception)
| step_unsent st l1 item l2 exception :
    pending st = l1 ++ item :: l2 →
    func item = Unsent (Some exception) →
    pool_step num_parallel timeout st (error_handler (take_out l1 l2 st) exception).

Definition pool_init (iterable : list I) : pool_state I R :=
  PoolState iterable [] [] 0.

(** [multiprocssing_run(func, iterable, job_name, num_parallel, timeout, **kwargs)]:
    [Pool(num_parallel)] refuses a worker count below one; otherwise
    [pool.join()] returns once every callback has run.  The outcome is
    the returned list (or the exception) and the final pool state. *)
Inductive multiprocssing_run (iterable : list I) (num_parallel : Z) (timeout : option nat) :
    result (list R) → pool_state I R → Prop :=
| run_no_worker :
    (num_parallel < 1)%Z →
    multiprocssing_run iterable num_parallel timeout
      (Raise (ValueError "Number of processes must be at least 1"))
      (pool_init iterable)
| run_joined st :
    (1 ≤ num_parallel)%Z →
    rtc (pool_step (Z.to_nat num_parallel) (default 0 timeout)) (pool_init iterable) st →
    pending st = [] →
    multiprocssing_run iterable num_parallel timeout (Ok (returns st)) st.

(** The schedule in which every task completes in submission order, as
    with a single worker.  [None] when nothing comes back for a task. *)
Fixpoint run_in_order (timeout : nat) (st : pool_state I R) (items : list I) : option (pool_state I R) :=
  match items with
  | [] => Some st
  | item :: items' =>
      match worker item timeout with
      | Result result =>
          run_in_order timeout (success_handler (take_out [] items' st) result) items'
      | Failure exception =>
          run_in_order timeout (error_handler (take_out [] items' st) exception) items'
      | Stuck | Gone => None
      end
  end.

(** Specification side.  What the operation does when it is called and
    left alone ([None]: it is never called); the operation raises on
    [item]; it does not finish within the timeout; it catches the
    exception of the alarm. *)
Definition operation (b : behaviour R) : option (option (nat * result R)) :=
  match b with
  | Finishes secs out | Overtaken secs out _ => Some (Some (secs, out))
  | Hangs => Some None
  | Catches alone _ => Some alone
  | Unsent _ => None
  end.

Definition raises (item : I) : Prop :=
  ∃ secs e, operation (func item) = Some (Some (secs, Raise e)).

Definition times_out (timeout : nat) (item : I) : Prop :=
  0 < timeout
  ∧ (operation (func item) = Some None
     ∨ ∃ secs out, operation (func item) = Some (Some (secs, out)) ∧ (timeout ≤ secs)%nat).

Definition catches (item : I) : Prop :=
  ∃ alone after, func item = Catches alone after.

(** The pool reports a failure for the item; the result of a task that
    succeeds; the log record of a task that fails. *)
Definition dropped (timeout : nat) (item : I) : bool :=
  match worker item timeout with
  | Failure _ => true
  | _ => false
  end.

Definition result_of (timeout : nat) (item : I) : option R :=
  match worker item timeout with
  | Result result => Some result
  | _ => None
  end.

Definition warning_of (timeout : nat) (item : I) : option (level * string) :=
  match worker item timeout with
  | Failure exception =>
      Some (DEBUG, "Multiprocessing Run Warnning: " +:+ exn_str exception)
  | _ => None
  end.

(** Something comes back for the task. *)
Definition delivered (timeout : nat) (item : I) : Prop :=
  match worker item timeout with
  | Result _ | Failure _ => True
  | Stuck | Gone => False
  end.

#[global] Instance delivered_dec timeout item : Decision (delivered timeout item).
Proof. unfold delivered. destruct (worker item timeout); apply _. Defined.

(** A task with nothing between the operation and the parent: the
    operation lets the exception of the alarm pass, no alarm goes off
    late, and what the call ends with arrives. *)
Definition clean (timeout : nat) (item : I) : Prop :=
  (func item = Hangs ∨ ∃ secs out, func item = Finishes secs out)
  ∧ ∀ out, _func_timeout item timeout = Some out → transport out = Arrives.

(** What holds of every pool state reached from [pool_init iterable]:
    the tasks split into those pending and those done, and the results,
    the log and the counter account for the tasks done. *)
Definition pool_inv (timeout : nat) (iterable : list I) (st : pool_state I R) : Prop :=
  ∃ finished,
    pending st ++ finished ≡ₚ iterable
    ∧ Forall (delivered timeout) finished
    ∧ returns st ≡ₚ omap (result_of timeout) finished
    ∧ log st ≡ₚ omap (warning_of timeout) finished
    ∧ completed st = length finished.

End runner.

(** A stage of the console hands its items to the pool
    ([_multiprocssing_run(operation, items, ..., num_parallel=...)]) and
    gets back the results of the tasks that succeeded; the tasks write
    files.  The console code is stated for any such pool: what it does
    with the returned list does not depend on how the pool schedules. *)
Abbreviation pool_run I R := (list I → Z → FS → result (list R) * FS).

(** ** ensemble.py: [split_ligand] *)

Definition activity_label_name : list string :=
  _type ← ["b"; "s"]; _label ← ["Activity"; "activity"];
  [_type +:+ "_user_" +:+ _label].

(** The inner [for _label in activity_label_name] with its [try]. *)
Fixpoint find_activity (property : gmap string value) (labels : list string) : string :=
  match labels with
  | [] => ""
  | _label :: labels' =>
      match property !! _label with
      | Some v => value_str v
      | None => find_activity property labels'
      end
  end.

(** [structure.property[key]] *)
Definition property_get (structure : Structure.t) (key : string) : result value :=
  match Structure.property structure !! key with
  | Some v => Ok v
  | None => Raise (KeyError key)
  end.

Definition st_name_of (index : nat) (title : value) : string :=
  Str.of_nat index +:+ "-" +:+ value_str title.

(** The body of the loop over [enumerate(ligand_file.structures)]; the
    local variables are [(label_list, ligand_path_list)]. *)
Definition split_ligand_body `{Common} (save_dir : string) (overwrite : bool)
    (acc : list string * list string) (entry : nat * Structure.t)
    : M FS (list string * list string) :=
  let '(label_list, ligand_path_list) := acc in
  let '(index, structure) := entry in
  title ← lift (property_get structure "s_m_title");
  let st_name := st_name_of index title in
  let structure := Structure.mk
    (<["i_user_StructureIndex" := Int (Z.of_nat index)]> (Structure.property structure)) in
  let st_activity := find_activity (Structure.property structure) activity_label_name in
  let label_list := label_list ++ [st_name +:+ "," +:+ st_activity] in
  let output_file := Str.path_join save_dir (st_name +:+ ".mae") in
  fs ← get;
  _ ← (if negb (bool_decide (is_Some (fs !! output_file))) || overwrite
       then modify (<[output_file := Structure_write structure]>)
       else mret tt);
  mret (label_list, ligand_path_list ++ [output_file]).

Definition split_ligand `{Common} (ligand_file : LigandFile.t)
    (save_dir : option string) (overwrite : bool) : M FS (list string) :=
  let save_dir := default (LigandFile.file_dir ligand_file) save_dir in
  '(label_list, ligand_path_list) ←
    for_each (imap pair (LigandFile.structures ligand_file))
      (split_ligand_body save_dir overwrite) ([], []);
  _ ← modify (<[Str.path_join save_dir "label.csv" := Str.join (String Str.LF "") label_list]>);
  mret ligand_path_list.

(** ** ensemble.py: [_Console] *)

Module Console.
Record t : Type := mk {
  pairs_list : list (string * string);
  minimized_file_list : option (list MinimizedFile.t);
  ligand_path_list : option (list string);
  mapping : option (list mapping_item);
  grid_file_list : option (list GridFile.t);
  ligand_file_list : option (list LigandFile.t);
  dock_file_list : option (list DockResultFile.t);
  docking_failed_list : option (list string);
  grid_save_dir : string;
  ligand_save_dir : string;
  base_dock_save_dir : string;
  result_save_dir : string
}.

Definition set_ligand_path_list (v : list string) (c : t) : t :=
  mk (pairs_list c) (minimized_file_list c) (Some v) (mapping c)
     (grid_file_list c) (ligand_file_list c) (dock_file_list c) (docking_failed_list c)
     (grid_save_dir c) (ligand_save_dir c) (base_dock_save_dir c) (result_save_dir c).

Definition set_mapping (v : list mapping_item) (c : t) : t :=
  mk (pairs_list c) (minimized_file_list c) (ligand_path_list c) (Some v)
     (grid_file_list c) (ligand_file_list c) (dock_file_list c) (docking_failed_list c)
     (grid_save_dir c) (ligand_save_dir c) (base_dock_save_dir c) (result_save_dir c).

Definition set_grid_file_list (v : list GridFile.t) (c : t) : t :=
  mk (pairs_list c) (minimized_file_list c) (ligand_path_list c) (mapping c)
     (Some v) (ligand_file_list c) (dock_file_list c) (docking_failed_list c)
     (grid_save_dir c) (ligand_save_dir c) (base_dock_save_dir c) (result_save_dir c).

Definition set_ligand_file_list (v : list LigandFile.t) (c : t) : t :=
  mk (pairs_list c) (minimized_file_list c) (ligand_path_list c) (mapping c)
     (grid_file_list c) (Some v) (dock_file_list c) (docking_failed_list c)
     (grid_save_dir c) (ligand_save_dir c) (base_dock_save_dir c) (result_save_dir c).

Definition set_dock_file_list (v : list DockResultFile.t) (c : t) : t :=
  mk (pairs_list c) (minimized_file_list c) (ligand_path_list c) (mapping c)
     (grid_file_list c) (ligand_file_list c) (Some v) (docking_failed_list c)
     (grid_save_dir c) (ligand_save_dir c) (base_dock_save_dir c) (result_save_dir c).

Definition set_docking_failed_list (v : list string) (c : t) : t :=
  mk (pairs_list c) (minimized_file_list c) (ligand_path_list c) (mapping c)
     (grid_file_list c) (ligand_file_list c) (dock_file_list c) (Some v)
     (grid_save_dir c) (ligand_save_dir c) (base_dock_save_dir c) (result_save_dir c).

(** [__init__]: every result list starts as [None]; the directories
    hang off the working directory. *)
Definition __init__ (pairs_list : list (string * string)) (cwd : string) : t :=
  mk pairs_list None None None None None None None
     (Str.path_join cwd "grid") (Str.path_join cwd "ligands")
     (Str.path_join cwd "dockfiles") (Str.path_join cwd "result").
End Console.

(** The state a method of the console works on. *)
Record world : Type := World { self : Console.t; files : FS }.

Definition get_self : M world Console.t := λ w, (Ok (self w), w).
Definition set_self (f : Console.t → Console.t) : M world unit :=
  modify (λ w, World (f (self w)) (files w)).
Definition on_files {A} (m : M FS A) : M world A := λ w,
  let '(r, fs) := m (files w) in (r, World (self w) fs).
Definition run_pool {I R} (pool : pool_run I R) (items : list I) (num_parallel : Z)
    : M world (list R) := on_files (pool items num_parallel).

Definition failed_list_file_path (result_save_dir precision : string) : string :=
  Str.path_join result_save_dir ("docking_failed_" +:+ precision +:+ ".csv").

(** [(pdbid, internal_lig, docking_lig) for pdbid, internal_lig,
    docking_lig in ...]: unpacking a tuple that has not three fields
    raises. *)
Definition unpack3 (fields : list string) : result triple :=
  match fields with
  | [pdbid; internal_lig; docking_lig] => Ok (pdbid, internal_lig, docking_lig)
  | _ :: _ :: _ :: _ :: _ => Raise (ValueError "too many values to unpack (expected 3)")
  | _ => Raise (ValueError ("not enough values to unpack (expected 3, got "
                            +:+ Str.of_nat (length fields) +:+ ")"))
  end.

(** The lines of a ledger file, as [f.read().splitlines()] gives them,
    turned into failure records. *)
Definition parse_failed_list (text : string) : result (list triple) :=
  let lines := Str.splitlines (Str.universal_newlines text) in
  let _failed_list := map (Str.split Str.comma) lines in
  rmapM unpack3 _failed_list.

(** [_Console._get_failed_list] *)
Definition _get_failed_list (precision : string) : M world (option (list triple)) :=
  c ← get_self;
  fs ← on_files get;
  let _failed_list_file_path := failed_list_file_path (Console.result_save_dir c) precision in
  match fs !! _failed_list_file_path with
  | Some text => l ← lift (parse_failed_list text); mret (Some l)
  | None => mret None
  end.

(** The tuple tested against [failed_list] at line 143. *)
Definition mapping_key (grid_file : GridFile.t) (ligand_file : LigandFile.t) : triple :=
  (GridFile.pdbid grid_file, GridFile.ligand grid_file,
   LigandFile.ligand_name ligand_file).

(** [_Console._creat_mapping]: two nested [for] loops that append to
    [mapping_results]. *)
Definition _creat_mapping (grid_file_list : list GridFile.t)
    (ligand_file_list : list LigandFile.t)
    (failed_list : option (list triple)) : list mapping_item :=
  let failed_list := default [] failed_list in
  foldl (λ mapping_results grid_file,
    foldl (λ mapping_results ligand_file,
      if decide (mapping_key grid_file ligand_file ∈ failed_list)
      then mapping_results
      else mapping_results ++ [(grid_file, ligand_file)])
    mapping_results ligand_file_list)
  [] grid_file_list.

(** [_Console.multi_grid_generate] *)
Definition multi_grid_generate (grid_generate : pool_run MinimizedFile.t GridFile.t)
    (num_parallel : Z) : M world (list GridFile.t) :=
  c ← get_self;
  match Console.minimized_file_list c with
  | None => raise (FileNotFoundError "No minimized file found. Please run minimize first.")
  | Some _pairs_list =>
      grid_file_list ← run_pool grid_generate _pairs_list num_parallel;
      _ ← set_self (Console.set_grid_file_list grid_file_list);
      mret grid_file_list
  end.

(** [_Console.ligand_split] *)
Definition ligand_split `{Common} (external_ligand_file : LigandFile.t)
    (overwrite : bool) : M world (list string) :=
  c ← get_self;
  ligand_path_list ←
    on_files (split_ligand external_ligand_file (Some (Console.ligand_save_dir c)) overwrite);
  _ ← set_self (Console.set_ligand_path_list ligand_path_list);
  mret ligand_path_list.

(** [_Console.creat_mapping] *)
Definition creat_mapping `{Common} (precision : string) : M world unit :=
  c ← get_self;
  match Console.ligand_path_list c with
  | None => raise (RuntimeError "Please run ligand_split first.")
  | Some ligand_path_list =>
      match Console.grid_file_list c with
      | None => raise (RuntimeError "Please run grid_generate first.")
      | Some grid_file_list =>
          let ligand_file_list := map LigandFile_new ligand_path_list in
          _ ← set_self (Console.set_ligand_file_list ligand_file_list);
          failed_list ← _get_failed_list precision;
          set_self (Console.set_mapping
                      (_creat_mapping grid_file_list ligand_file_list failed_list))
      end
  end.

(** The line [multi_dock] writes for a mapping entry (line 315). *)
Definition total_line (mapping_item : mapping_item) : string :=
  GridFile.pdbid mapping_item.1 +:+ "," +:+ GridFile.internal_ligand mapping_item.1
  +:+ "," +:+ LigandFile.ligand_name mapping_item.2.

(** The line of a dock result (line 316). *)
Definition success_line (dock_result_item : DockResultFile.t) : string :=
  DockResultFile.pdbid dock_result_item +:+ ","
  +:+ DockResultFile.internal_ligand_name dock_result_item +:+ ","
  +:+ DockResultFile.docking_ligand_name dock_result_item.

(** [_Console.multi_dock].  The debug messages are f-strings, evaluated
    whatever the log level: line 304 takes [len] of both lists. *)
Definition multi_dock `{SetIteration} (dock : pool_run mapping_item DockResultFile.t)
    (precision : string) (num_parallel : Z) : M world unit :=
  c ← get_self;
  _ ← lift (py_len (Console.grid_file_list c));
  _ ← lift (py_len (Console.ligand_file_list c));
  match Console.mapping c with
  | None => raise (RuntimeError "Please run creat_mapping first.")
  | Some mapping =>
      dock_file_list ← run_pool dock mapping num_parallel;
      _ ← set_self (Console.set_dock_file_list dock_file_list);
      let total_result := map total_line mapping in
      let success_result := map success_line dock_file_list in
      let docking_failed_list :=
        iter_set (list_to_set total_result ∖ list_to_set success_result) in
      _ ← set_self (Console.set_docking_failed_list docking_failed_list);
      if bool_decide (length docking_failed_list ≠ 0)
      then on_files (modify (<[failed_list_file_path (Console.result_save_dir c) precision
                               := Str.join (String Str.LF "") docking_failed_list]>))
      else mret tt
  end.

(** The path of the dock result that [multi_extract_data] expects. *)
Definition dockfile_path (base_dock_save_dir pdbid ligid ligand_name precision : string) : string :=
  Str.path_join (Str.path_join base_dock_save_dir pdbid)
    (pdbid +:+ "_" +:+ ligid +:+ "_glide-dock_" +:+ ligand_name +:+ "_" +:+ precision +:+ ".maegz").

(** [_Console.multi_extract_data] *)
Definition multi_extract_data `{Common} {D : Type}
    (extra_docking_data : pool_run DockResultFile.t D)
    (precision : string) (num_parallel : Z) : M world (list D) :=
  c ← get_self;
  dock_file_list ←
    match Console.dock_file_list c with
    | Some dock_file_list => mret dock_file_list
    | None =>
        match Console.ligand_path_list c with
        | None => raise (RuntimeError "Please run ligand_split first.")
        | Some ligand_path_list =>
            let ligand_name_list :=
              map (λ ligand_path,
                     default "" (head (Str.split "."%char (Str.basename ligand_path))))
                  ligand_path_list in
            _failed_list ← _get_failed_list precision;
            dockfile_path_list ←
              for_each (Console.pairs_list c) (λ dockfile_path_list '(pdbid, ligid),
                for_each ligand_name_list (λ dockfile_path_list ligand_name,
                  skip ← lift (py_in (pdbid, ligid, ligand_name) _failed_list);
                  if (skip : bool) then mret dockfile_path_list
                  else mret (dockfile_path_list ++
                    [dockfile_path (Console.base_dock_save_dir c) pdbid ligid ligand_name precision]))
                dockfile_path_list) [];
            let dock_file_list := map DockResultFile_new dockfile_path_list in
            _ ← set_self (Console.set_dock_file_list dock_file_list);
            mret dock_file_list
        end
    end;
  run_pool extra_docking_data dock_file_list num_parallel.

(** ** Specification-side definitions *)

(** The full cross product in nested iteration order: every pair of
    grid [i] before any pair of grid [i+1], and within a grid ligand
    [j] before ligand [j+1]. *)
Definition cross (G : list GridFile.t) (L : list LigandFile.t) : list mapping_item :=
  flat_map (λ g, map (λ l, (g, l)) L) G.

Definition item_key (m : mapping_item) : triple := mapping_key m.1 m.2.

(** A pair survives the exclusion list [E]. *)
Definition kept (E : list triple) (m : mapping_item) : Prop := item_key m ∉ E.

#[global] Instance kept_dec E m : Decision (kept E m).
Proof. unfold kept. apply _. Defined.

Definition excluded (E : list triple) (m : mapping_item) : Prop := item_key m ∈ E.

#[global] Instance excluded_dec E m : Decision (excluded E m).
Proof. unfold excluded. apply _. Defined.

(** The key triple of a submitted mapping entry and of a dock result,
    as [multi_dock] reads them, and the ledger line of a triple. *)
Definition dock_key (m : mapping_item) : triple :=
  (GridFile.pdbid m.1, GridFile.internal_ligand m.1, LigandFile.ligand_name m.2).

Definition result_key (r : DockResultFile.t) : triple :=
  (DockResultFile.pdbid r, DockResultFile.internal_ligand_name r,
   DockResultFile.docking_ligand_name r).

Definition line_of (t : triple) : string :=
  t.1.1 +:+ "," +:+ t.1.2 +:+ "," +:+ t.2.

(** The ledger format has no quoting: a field holds no comma, and, the
    file being split into lines, no line boundary. *)
Definition comma_free (t : triple) : Prop :=
  Str.contains Str.comma t.1.1 = false ∧ Str.contains Str.comma t.1.2 = false
  ∧ Str.contains Str.comma t.2 = false.

Definition one_line (t : triple) : Prop :=
  Str.has_linebreak t.1.1 = false ∧ Str.has_linebreak t.1.2 = false
  ∧ Str.has_linebreak t.2 = false.

(** What a ledger load answers, as a function of the result directory
    and the files. *)
Definition load_ledger (result_save_dir precision : string) (fs : FS)
    : result (option (list triple)) :=
  match fs !! failed_list_file_path result_save_dir precision with
  | Some text => l ← parse_failed_list text; Ok (Some l)
  | None => Ok None
  end.

(** The title, the label and the [label.csv] line of the structure at
    position [index] of a ligand file. *)
Definition title_of (st : Structure.t) : value :=
  default (Text "") (Structure.property st !! "s_m_title").

Definition structure_label (entry : nat * Structure.t) : string :=
  st_name_of entry.1 (title_of entry.2).

Definition label_line (entry : nat * Structure.t) : string :=
  structure_label entry +:+ ","
  +:+ find_activity (Structure.property entry.2) activity_label_name.

(** The list [docking_failed_list] of line 317. *)
Definition failed_lines `{SetIteration} (mapping : list mapping_item)
    (results : list DockResultFile.t) : list string :=
  iter_set (list_to_set (map total_line mapping) ∖ list_to_set (map success_line results)).

(** ** A worked run: two grids, three ligands *)

Module Run.
Definition R1 : GridFile.t := GridFile.mk "R1" "L1" "L1" "/work/grid/R1_glide-grid_L1.zip".
Definition R2 : GridFile.t := GridFile.mk "R2" "L2" "L2" "/work/grid/R2_glide-grid_L2.zip".

Definition ligand (name : string) : LigandFile.t :=
  LigandFile.mk ("/work/ligands/" +:+ name +:+ ".mae") "/work/ligands"
    (name +:+ ".mae") name [].

Definition A : LigandFile.t := ligand "A".
Definition B : LigandFile.t := ligand "B".
Definition C : LigandFile.t := ligand "C".

(** [LigandFile(path)] and [DockResultFile(path)] name a file after
    its path; [structure.write] is taken to write the title. *)
Definition common : Common := {|
  LigandFile_new path :=
    let file_name := Str.basename path in
    LigandFile.mk path "/work/ligands" file_name
      (default "" (head (Str.split "."%char file_name))) [];
  DockResultFile_new path :=
    match Str.split "_"%char (Str.basename path) with
    | pdbid :: ligid :: _ :: name :: _ => DockResultFile.mk pdbid ligid name path
    | _ => DockResultFile.mk "" "" "" path
    end;
  Structure_write st :=
    match Structure.property st !! "s_m_title" with
    | Some v => value_str v
    | None => ""
    end
|}.

(** A docking stage in which every task succeeds but those of [lost];
    it leaves the files alone. *)
Definition dock (lost : list triple) : pool_run mapping_item DockResultFile.t :=
  λ mapping num_parallel fs,
    (Ok (map (λ m : mapping_item,
                DockResultFile.mk (GridFile.pdbid m.1) (GridFile.internal_ligand m.1)
                  (LigandFile.ligand_name m.2) "")
             (filter (λ m : mapping_item,
                        (GridFile.pdbid m.1, GridFile.internal_ligand m.1,
                         LigandFile.ligand_name m.2) ∉ lost) mapping)),
     fs).

(** The console after grid generation and ligand splitting. *)
Definition split_console : Console.t :=
  Console.set_ligand_path_list
    ["/work/ligands/A.mae"; "/work/ligands/B.mae"; "/work/ligands/C.mae"]
    (Console.set_grid_file_list [R1; R2]
       (Console.__init__ [("R1", "L1"); ("R2", "L2")] "/work")).

(** The console after [creat_mapping] on an empty ledger. *)
Definition mapped_console : Console.t :=
  Console.set_mapping (cross [R1; R2] [A; B; C])
    (Console.set_ligand_file_list [A; B; C] split_console).
End Run.

(** ** Further specification-side definitions *)

(** A ledger line that unpacks into a record: three comma-separated
    fields. *)
Definition three_fields (line : string) : Prop :=
  length (Str.split Str.comma line) = 3.

#[global] Instance three_fields_dec line : Decision (three_fields line).
Proof. unfold three_fields. apply _. Defined.

(** The two line ends a text file may use: LF, or CR LF. *)
Definition is_eol (eol : string) : Prop :=
  eol = String Str.LF "" ∨ eol = String Str.CR (String Str.LF "").

(** What holds of every pool state reached with a single worker: the
    tasks that hold the worker come back in the order of submission,
    and the results list them in that order; so does the log when every
    task could be pickled. *)
Definition single_worker_inv {I R : Type} (func_name : string) (item_str : I → string)
    (func : I → behaviour R) (transport : result R → fate) (kwargs : list (string * string))
    (timeout : nat) (iterable : list I) (st : pool_state I R) : Prop :=
  let holds item := holds_worker func_name item_str func transport kwargs timeout item = true in
  ∃ finished,
    filter holds iterable = finished ++ filter holds (pending st)
    ∧ (∀ item, item ∈ pending st → item ∈ iterable)
    ∧ returns st = omap (result_of func_name item_str func transport kwargs timeout) finished
    ∧ (Forall (λ item, ∀ e, func item ≠ Unsent (Some e)) iterable →
       log st = omap (warning_of func_name item_str func transport kwargs timeout) finished).

(** ** [split_ligand]: the files it leaves *)

Definition has_title (structure : Structure.t) : Prop :=
  is_Some (Structure.property structure !! "s_m_title").

#[global] Instance has_title_dec structure : Decision (has_title structure).
Proof. unfold has_title. apply _. Defined.

(** The structure at position [index] as it is when it is written:
    line 43 has stored the index in it. *)
Definition indexed_structure (entry : nat * Structure.t) : Structure.t :=
  Structure.mk
    (<["i_user_StructureIndex" := Int (Z.of_nat entry.1)]> (Structure.property entry.2)).

Definition structure_path (save_dir : string) (entry : nat * Structure.t) : string :=
  Str.path_join save_dir (structure_label entry +:+ ".mae").

(** Lines 54 to 56 for one structure. *)
Definition store_structure `{Common} (save_dir : string) (overwrite : bool)
    (fs : FS) (entry : nat * Structure.t) : FS :=
  if negb (bool_decide (is_Some (fs !! structure_path save_dir entry))) || overwrite
  then <[structure_path save_dir entry := Structure_write (indexed_structure entry)]> fs
  else fs.

(** ** [multi_extract_data]: the dock results it expects *)

(** Line 331: the ligand name read off a path. *)
Definition ligand_name_of (ligand_path : string) : string :=
  default "" (head (Str.split "."%char (Str.basename ligand_path))).

(** The keys tested at line 339, in the order of the two loops. *)
Definition expected_keys (pairs_list : list (string * string))
    (ligand_name_list : list string) : list triple :=
  flat_map (λ pair, map (λ ligand_name, (pair.1, pair.2, ligand_name)) ligand_name_list)
    pairs_list.

Definition expected_paths (base_dock_save_dir precision : string) (failed : list triple)
    (pairs_list : list (string * string)) (ligand_name_list : list string) : list string :=
  map (λ key : triple, dockfile_path base_dock_save_dir key.1.1 key.1.2 key.2 precision)
    (filter (λ key, key ∉ failed) (expected_keys pairs_list ligand_name_list)).

(** A title that can be read back from the file name. *)
Definition plain_title (structure : Structure.t) : Prop :=
  Str.contains "/"%char (value_str (title_of structure)) = false
  ∧ Str.contains "."%char (value_str (title_of structure)) = false.

#[global] Instance plain_title_dec structure : Decision (plain_title structure).
Proof. unfold plain_title. apply _. Defined.

(** ** tool.py: [download_pdb]

    The network is the function [requests_get] from a URL to the
    response or the exception of [requests.get]; the state holds the
    files and the URLs requested so far.  The directory [save_dir] is
    taken to exist. *)

Module Response.
Record t : Type := mk { status_code : Z; text : string }.
End Response.

Record net : Type := Net { disk : FS; requested : list string }.

Definition download_pdb (requests_get : string → result Response.t) (cwd : string)
    (pdbid : string) (save_dir : option string) (overwrite : bool) : M net unit :=
  let base_url := "https://files.rcsb.org/download/" in
  let pdbfile := pdbid +:+ ".pdb" in
  let save_dir := default cwd save_dir in
  let downloaded_file := Str.path_join save_dir pdbfile in
  st ← get;
  if bool_decide (is_Some (disk st !! downloaded_file)) && negb overwrite then mret tt
  else
    let url := base_url +:+ pdbfile in
    _ ← modify (λ st, Net (disk st) (requested st ++ [url]));
    response ← lift (requests_get url);
    if bool_decide (Response.status_code response ≠ 200%Z)
    then raise (RuntimeError ("Failed to download " +:+ pdbid +:+ ".pdb"))
    else
      let pdb_data := Response.text response in
      modify (λ st, Net (<[downloaded_file := pdb_data]> (disk st)) (requested st)).

(** ** tool.py: the checks for installed programs

    [returncode] gives the exit status of a shell command; the state
    holds the commands run and the records logged at level INFO. *)

Record shell : Type := Shell { commands : list string; infos : list string }.

Definition subprocess_run (returncode : string → Z) (command : string) : M shell Z :=
  _ ← modify (λ sh, Shell (commands sh ++ [command]) (infos sh));
  mret (returncode command).

Definition logger_info (msg : string) : M shell unit :=
  modify (λ sh, Shell (commands sh) (infos sh ++ [msg])).

Definition ESC : string := String (Ascii.ascii_of_nat 27) "".

Definition not_installed (path : string) : string :=
  ESC +:+ "[31m" +:+ path +:+ " is not installed or not in PATH." +:+ ESC +:+ "[0m".

Definition _check_execu_help (returncode : string → Z) (path : string) : M shell bool :=
  p ← subprocess_run returncode (path +:+ " -h");
  if bool_decide (p = 0%Z) then mret true
  else _ ← logger_info (not_installed path); mret false.

Definition _check_execu_version (returncode : string → Z) (path : string) : M shell bool :=
  p ← subprocess_run returncode (path +:+ " --version");
  if bool_decide (p = 0%Z) then mret true
  else _ ← logger_info (not_installed path); mret false.

(** [all] is applied to a list whose six elements are computed first. *)
Definition is_amber_available (returncode : string → Z) : M shell bool :=
  c1 ← _check_execu_help returncode "tleap";
  c2 ← _check_execu_version returncode "sander";
  c3 ← _check_execu_version returncode "cpptraj";
  c4 ← _check_execu_version returncode "parmed";
  c5 ← _check_execu_version returncode "pdb4amber";
  c6 ← _check_execu_help returncode "antechamber";
  if negb (forallb id [c1; c2; c3; c4; c5; c6]) then mret false else mret true.

Definition is_pmemd_cuda_available (returncode : string → Z) : M shell bool :=
  _check_execu_version returncode "pmemd.cuda".

(** The six commands of [is_amber_available] with the program each one
    stands for. *)
Definition amber_checks : list (string * string) :=
  [("tleap", "tleap -h"); ("sander", "sander --version"); ("cpptraj", "cpptraj --version");
   ("parmed", "parmed --version"); ("pdb4amber", "pdb4amber --version");
   ("antechamber", "antechamber -h")].

(** * Properties *)

(** Runs a method of the console on a world split into [c] and [fs]. *)
Ltac run_method w c fs :=
  destruct w as [c fs]; simpl in *;
  unfold mbind, M_bind, get_self, lift, raise; simpl.

(** ** The mapping builder *)

Section mapping_builder.
Implicit Types (G : list GridFile.t) (L : list LigandFile.t).
Implicit Types (E : list triple) (acc : list mapping_item).

Lemma inner_loop E g L acc :
  foldl (λ mapping_results ligand_file,
    if decide (mapping_key g ligand_file ∈ E)
    then mapping_results
    else mapping_results ++ [(g, ligand_file)]) acc L
  = acc ++ filter (kept E) (map (λ l, (g, l)) L).
Proof.
  revert acc. induction L as [|l L IH]; intros acc; simpl.
  - by rewrite app_nil_r.
  - rewrite IH, filter_cons. unfold kept at 2, item_key. simpl.
    destruct (decide (mapping_key g l ∈ E)) as [Hin|Hout].
    + by rewrite decide_False by (intros H; by apply H).
    + by rewrite decide_True, <- app_assoc by done.
Qed.

Lemma outer_loop E G L acc :
  foldl (λ mapping_results grid_file,
    foldl (λ mapping_results ligand_file,
      if decide (mapping_key grid_file ligand_file ∈ E)
      then mapping_results
      else mapping_results ++ [(grid_file, ligand_file)])
    mapping_results L) acc G
  = acc ++ filter (kept E) (cross G L).
Proof.
  unfold cross. revert acc. induction G as [|g G IH]; intros acc; simpl.
  - by rewrite app_nil_r.
  - rewrite IH, inner_loop, filter_app, <- app_assoc. done.
Qed.

Lemma creat_mapping_filter G L failed_list :
  _creat_mapping G L failed_list
  = filter (kept (default [] failed_list)) (cross G L).
Proof. unfold _creat_mapping. by rewrite outer_loop. Qed.

Lemma filter_kept_nil (l : list mapping_item) : filter (kept []) l = l.
Proof.
  induction l as [|m l IH]; [done|].
  rewrite filter_cons, decide_True, IH; [done|].
  unfold kept. apply not_elem_of_nil.
Qed.

Lemma length_cross G L : length (cross G L) = length G * length L.
Proof.
  unfold cross. induction G as [|g G IH]; simpl; [done|].
  by rewrite length_app, length_map, IH.
Qed.

Lemma cross_nil_r G : cross G [] = [].
Proof. unfold cross. induction G as [|g G IH]; simpl; done. Qed.

Lemma cross_lookup G L i j g l :
  G !! i = Some g → L !! j = Some l →
  cross G L !! (i * length L + j) = Some (g, l).
Proof.
  unfold cross. revert i. induction G as [|g0 G IH]; intros i HG HL; [done|].
  destruct i as [|i]; simpl in *.
  - simplify_eq. rewrite lookup_app_l.
    + by rewrite list_lookup_fmap, HL.
    + rewrite length_map. by eapply lookup_lt_Some.
  - rewrite lookup_app_r by (rewrite length_map; lia).
    rewrite length_map.
    replace (length L + i * length L + j - length L)
      with (i * length L + j) by lia.
    by apply IH.
Qed.

Lemma elem_of_cross G L g l : (g, l) ∈ cross G L ↔ g ∈ G ∧ l ∈ L.
Proof.
  unfold cross. rewrite list_elem_of_In, in_flat_map. split.
  - intros (g' & Hg & Hl). apply in_map_iff in Hl as (l' & Heq & Hl).
    simplify_eq. by rewrite !list_elem_of_In.
  - intros [Hg Hl]. exists g. rewrite <- list_elem_of_In. split; [done|].
    apply in_map_iff. exists l. by rewrite <- list_elem_of_In.
Qed.

Lemma length_kept_excluded E (l : list mapping_item) :
  length (filter (kept E) l) + length (filter (excluded E) l) = length l.
Proof.
  induction l as [|x l IH]; [done|].
  rewrite !filter_cons.
  destruct (decide (kept E x)) as [Hk|Hk], (decide (excluded E x)) as [He|He];
    simpl; unfold kept, excluded in *; first [lia|contradiction].
Qed.

Lemma length_creat_mapping G L E :
  length (_creat_mapping G L (Some E))
  = length G * length L - length (filter (excluded E) (cross G L)).
Proof.
  rewrite creat_mapping_filter. simpl.
  pose proof (length_kept_excluded E (cross G L)) as Hsplit.
  rewrite length_cross in Hsplit. lia.
Qed.

End mapping_builder.

Example creat_mapping_2x3 :
  let g1 := GridFile.mk "R1" "L1" "L1" "R1.zip" in
  let g2 := GridFile.mk "R2" "L2" "L2" "R2.zip" in
  let a := LigandFile.mk "A.mae" "" "A.mae" "A" [] in
  let b := LigandFile.mk "B.mae" "" "B.mae" "B" [] in
  let c := LigandFile.mk "C.mae" "" "C.mae" "C" [] in
  _creat_mapping [g1; g2] [a; b; c] None
  = [(g1, a); (g1, b); (g1, c); (g2, a); (g2, b); (g2, c)]
  ∧ _creat_mapping [g1; g2] [a; b; c] (Some [("R2", "L2", "C")])
  = [(g1, a); (g1, b); (g1, c); (g2, a); (g2, b)].
Proof. split; reflexivity. Qed.

(** C1.  With no exclusion (the default [None], or an empty list) the
    mapping is the whole cross product in nested iteration order: it has
    [m * n] entries, the pair of grid [i] and ligand [j] sits at
    position [i * n + j], and an empty grid or ligand list gives the
    empty mapping.  [_creat_mapping] is a total function: no input makes
    it raise. *)
Theorem creat_mapping_full_product (G : list GridFile.t) (L : list LigandFile.t)
    (failed_list : option (list triple)) :
  default [] failed_list = [] →
  _creat_mapping G L failed_list = cross G L
  ∧ length (_creat_mapping G L failed_list) = length G * length L
  ∧ (∀ i j g l, G !! i = Some g → L !! j = Some l →
       _creat_mapping G L failed_list !! (i * length L + j) = Some (g, l))
  ∧ (G = [] ∨ L = [] → _creat_mapping G L failed_list = []).
Proof.
  intros Hempty.
  assert (_creat_mapping G L failed_list = cross G L) as Heq.
  { by rewrite creat_mapping_filter, Hempty, filter_kept_nil. }
  rewrite Heq. split_and!; [done|apply length_cross| |].
  - intros i j g l. apply cross_lookup.
  - intros [-> | ->]; [done|apply cross_nil_r].
Qed.

Lemma creat_mapping_full_product_witness :
  let g1 := GridFile.mk "R1" "L1" "L1" "R1.zip" in
  let a := LigandFile.mk "A.mae" "" "A.mae" "A" [] in
  let b := LigandFile.mk "B.mae" "" "B.mae" "B" [] in
  _creat_mapping [g1] [a; b] None = cross [g1] [a; b]
  ∧ length (_creat_mapping [g1] [a; b] None) = 1 * 2
  ∧ _creat_mapping [g1] [a; b] None !! (0 * 2 + 1) = Some (g1, b)
  ∧ _creat_mapping [] [a; b] (Some []) = [].
Proof.
  intros g1 a b.
  destruct (creat_mapping_full_product [g1] [a; b] None eq_refl) as (H1 & H2 & H3 & _).
  destruct (creat_mapping_full_product [] [a; b] (Some []) eq_refl) as (_ & _ & _ & H4).
  split_and!; [exact H1|exact H2|exact (H3 0 1 g1 b eq_refl eq_refl)|].
  apply H4. by left.
Defined.

(** C2.  For every exclusion list [E] the mapping consists of exactly
    the pairs of the cross product whose key triple is not in [E], in
    cross-product order; its length is [m * n] minus the number of
    cross-product entries whose key occurs in [E]; membership in [E] is
    equality of the whole triple; and no returned pair has its key in
    [E]. *)
Theorem creat_mapping_exclusion (G : list GridFile.t) (L : list LigandFile.t)
    (E : list triple) :
  _creat_mapping G L (Some E) = filter (kept E) (cross G L)
  ∧ length (_creat_mapping G L (Some E))
    = length G * length L - length (filter (excluded E) (cross G L))
  ∧ (∀ g l, (g, l) ∈ _creat_mapping G L (Some E)
       ↔ g ∈ G ∧ l ∈ L
         ∧ ¬ ∃ e, e ∈ E ∧ e = (GridFile.pdbid g, GridFile.ligand g, LigandFile.ligand_name l))
  ∧ Forall (λ m, item_key m ∉ E) (_creat_mapping G L (Some E)).
Proof.
  split_and!; [apply creat_mapping_filter|apply length_creat_mapping| |];
    rewrite creat_mapping_filter; simpl.
  - intros g l. rewrite list_elem_of_filter, elem_of_cross.
    unfold kept, item_key, mapping_key. simpl. split.
    + intros (Hout & Hg & Hl). split_and!; [done..|].
      intros (e & He & ->). by apply Hout.
    + intros (Hg & Hl & Hout). split; [|done].
      intros He. apply Hout. eauto.
  - apply Forall_forall. intros m Hm. by apply list_elem_of_filter in Hm as [? _].
Qed.

(** The count of C2 read on sets.  When the keys of the cross product
    are pairwise distinct (one grid per receptor and internal ligand,
    distinct ligand names) and [E] has no repeated record, the number of
    excluded pairs is the number of records of [E] that are keys of the
    cross product. *)
Lemma creat_mapping_exclusion_card (G : list GridFile.t) (L : list LigandFile.t)
    (E : list triple) :
  NoDup (map item_key (cross G L)) → NoDup E →
  length (_creat_mapping G L (Some E))
  = length G * length L - length (filter (λ e, e ∈ map item_key (cross G L)) E).
Proof.
  intros Hkeys HE.
  rewrite length_creat_mapping. f_equal.
  rewrite <- (length_map item_key (filter (excluded E) (cross G L))).
  apply Permutation_length, NoDup_Permutation.
  - clear HE. induction (cross G L) as [|m l IH]; simpl; [constructor|].
    apply NoDup_cons in Hkeys as [Hm Hl].
    rewrite filter_cons. destruct (decide (excluded E m)); simpl; [|by apply IH].
    apply NoDup_cons. split; [|by apply IH].
    intros Hin. apply Hm.
    apply list_elem_of_fmap in Hin as (m' & -> & Hm').
    apply list_elem_of_filter in Hm' as [_ Hm'].
    apply list_elem_of_fmap. eauto.
  - by apply NoDup_filter.
  - intros k. rewrite list_elem_of_filter. split.
    + intros Hk. apply list_elem_of_fmap in Hk as (m & -> & Hm).
      apply list_elem_of_filter in Hm as [Hex Hm]. split; [|done].
      apply list_elem_of_fmap. eauto.
    + intros [Hk HkE]. apply list_elem_of_fmap in Hk as (m & -> & Hm).
      apply list_elem_of_fmap. exists m. split; [done|].
      apply list_elem_of_filter. by split.
Qed.

(** Without distinct keys the two counts differ: the same grid listed
    twice loses two pairs to one record. *)
Example creat_mapping_repeated_grid :
  let g := GridFile.mk "R1" "L1" "L1" "R1.zip" in
  let a := LigandFile.mk "A.mae" "" "A.mae" "A" [] in
  let E := [("R1", "L1", "A")] in
  length (_creat_mapping [g; g] [a] (Some E)) = 0
  ∧ length (filter (λ e, e ∈ map item_key (cross [g; g] [a])) E) = 1.
Proof. split; reflexivity. Qed.

(** ** Strings: splitting what was joined *)

Example split_three : Str.split Str.comma "R2,L2,C" = ["R2"; "L2"; "C"].
Proof. reflexivity. Qed.

Example split_empty : Str.split Str.comma "" = [""].
Proof. reflexivity. Qed.

Example split_trailing : Str.split Str.comma "a," = ["a"; ""].
Proof. reflexivity. Qed.

Example splitlines_two :
  Str.splitlines ("R1,L1,A" +:+ String Str.LF "R2,L2,C") = ["R1,L1,A"; "R2,L2,C"].
Proof. reflexivity. Qed.

Example splitlines_crlf :
  Str.splitlines (String "a" (String Str.CR (String Str.LF "b"))) = ["a"; "b"].
Proof. reflexivity. Qed.

Example splitlines_trailing :
  Str.splitlines (String "a" (String Str.LF "")) = ["a"].
Proof. reflexivity. Qed.

Example splitlines_empty : Str.splitlines "" = [].
Proof. reflexivity. Qed.

Example splitlines_blank_lines :
  Str.splitlines (String Str.LF (String Str.LF "")) = [""; ""]
  ∧ Str.splitlines (String "a" (String Str.CR "")) = ["a"]
  ∧ Str.splitlines (String "a" (String Str.LF (String Str.CR "b"))) = ["a"; ""; "b"]
  ∧ Str.splitlines (String "a" (String (Ascii.ascii_of_nat 11) "b")) = ["a"; "b"].
Proof. by repeat split. Qed.

Example join_lines :
  Str.join (String Str.LF "") ["a"; "b"] = String "a" (String Str.LF "b")
  ∧ Str.join (String Str.LF "") ["a"] = "a"
  ∧ Str.join (String Str.LF "") [] = "".
Proof. by repeat split. Qed.

Example path_join_ex : Str.path_join "/work/result" "docking_failed_SP.csv"
  = "/work/result/docking_failed_SP.csv".
Proof. reflexivity. Qed.

Example universal_newlines_ex :
  Str.universal_newlines (String "a" (String Str.CR (String Str.LF (String Str.CR "b"))))
  = String "a" (String Str.LF (String Str.LF "b")).
Proof. reflexivity. Qed.

Example basename_ex : Str.basename "/work/ligands/0-A.mae" = "0-A.mae".
Proof. reflexivity. Qed.

Section strings.
Implicit Types (s t : string) (c : ascii).

Lemma contains_app c s t :
  Str.contains c (s +:+ t) = Str.contains c s || Str.contains c t.
Proof. induction s as [|c' s IH]; simpl; [done|]. by rewrite IH, orb_assoc. Qed.

Lemma has_linebreak_app s t :
  Str.has_linebreak (s +:+ t) = Str.has_linebreak s || Str.has_linebreak t.
Proof. induction s as [|c' s IH]; simpl; [done|]. by rewrite IH, orb_assoc. Qed.

Lemma split_no_sep c s : Str.contains c s = false → Str.split c s = [s].
Proof.
  induction s as [|c' s IH]; simpl; [done|].
  intros [Hc Hs]%orb_false_elim. apply bool_decide_eq_false in Hc.
  rewrite decide_False by done. by rewrite IH.
Qed.

Lemma split_app_sep c s t :
  Str.contains c s = false →
  Str.split c (s +:+ String c t) = s :: Str.split c t.
Proof.
  induction s as [|c' s IH]; simpl.
  - intros _. by rewrite decide_True.
  - intros [Hc Hs]%orb_false_elim. apply bool_decide_eq_false in Hc.
    rewrite decide_False by done. by rewrite IH.
Qed.

Lemma splitlines_one s :
  Str.has_linebreak s = false → s ≠ "" → Str.splitlines s = [s].
Proof.
  induction s as [|c s IH]; simpl; [done|].
  intros [Hc Hs]%orb_false_elim _. rewrite Hc.
  destruct s as [|c' s]; [done|]. by rewrite IH.
Qed.

Lemma splitlines_app_LF s t :
  Str.has_linebreak s = false →
  Str.splitlines (s +:+ String Str.LF t) = s :: Str.splitlines t.
Proof.
  induction s as [|c s IH]; simpl.
  - intros _. by destruct t.
  - intros [Hc Hs]%orb_false_elim. rewrite Hc. by rewrite IH.
Qed.

Lemma splitlines_cons_linebreak c s :
  Str.is_linebreak c = true → c ≠ Str.CR →
  Str.splitlines (String c s) = "" :: Str.splitlines s.
Proof.
  intros Hlb Hcr. simpl. rewrite Hlb. destruct s as [|c' s]; [done|].
  by rewrite (bool_decide_false (c = Str.CR)).
Qed.

(** Reading in text mode does not change the lines: [splitlines]
    already takes CR LF and CR for one boundary each. *)
Lemma splitlines_universal_newlines s :
  Str.splitlines (Str.universal_newlines s) = Str.splitlines s.
Proof.
  remember (String.length s) as n eqn:Hn. revert s Hn.
  induction n as [n IH] using lt_wf_ind. intros s ->.
  destruct s as [|c s]; [done|]. simpl Str.universal_newlines.
  destruct (bool_decide (c = Str.CR)) eqn:Hcr.
  - apply bool_decide_eq_true in Hcr as ->.
    destruct s as [|c' s]; [done|].
    destruct (bool_decide (c' = Str.LF)) eqn:Hlf.
    + apply bool_decide_eq_true in Hlf as ->.
      rewrite splitlines_cons_linebreak by done.
      rewrite (IH (String.length s)); [done|simpl; lia|done].
    + rewrite splitlines_cons_linebreak by done.
      rewrite (IH (String.length (String c' s))); [|simpl; lia|done].
      simpl. by rewrite Hlf.
  - apply bool_decide_eq_false in Hcr.
    pose proof (IH (String.length s) ltac:(simpl; lia) s eq_refl) as IHs.
    destruct (Str.is_linebreak c) eqn:Hlb.
    + rewrite !splitlines_cons_linebreak by done. by rewrite IHs.
    + simpl. by rewrite Hlb, IHs.
Qed.

Lemma splitlines_join (lines : list string) :
  Forall (λ s, Str.has_linebreak s = false ∧ s ≠ "") lines →
  Str.splitlines (Str.join (String Str.LF "") lines) = lines.
Proof.
  induction 1 as [|s lines [Hs Hne] Hlines IH]; [done|].
  destruct lines as [|s' lines].
  - by apply splitlines_one.
  - change (Str.join (String Str.LF "") (s :: s' :: lines))
      with (s +:+ String Str.LF (Str.join (String Str.LF "") (s' :: lines))).
    by rewrite splitlines_app_LF, IH.
Qed.

End strings.

(** ** The failure ledger *)

Section ledger.
Implicit Types (t k : triple) (w : world).

Lemma total_line_of m : total_line m = line_of (dock_key m).
Proof. done. Qed.

Lemma success_line_of r : success_line r = line_of (result_key r).
Proof. done. Qed.

Lemma split_line_of t :
  comma_free t → Str.split Str.comma (line_of t) = [t.1.1; t.1.2; t.2].
Proof.
  destruct t as [[a b] c]. intros (Ha & Hb & Hc). unfold line_of. simpl in *.
  change ("," +:+ b +:+ "," +:+ c) with (String Str.comma (b +:+ String Str.comma c)).
  by rewrite !split_app_sep, split_no_sep.
Qed.

Lemma line_of_inj t k : comma_free t → comma_free k → line_of t = line_of k → t = k.
Proof.
  intros Ht Hk Heq. apply split_line_of in Ht, Hk. rewrite Heq in Ht.
  destruct t as [[??]?], k as [[??]?]. simpl in *. congruence.
Qed.

Lemma line_of_one_line t :
  one_line t → Str.has_linebreak (line_of t) = false ∧ line_of t ≠ "".
Proof.
  destruct t as [[a b] c]. intros (Ha & Hb & Hc). unfold line_of. simpl in *. split.
  - rewrite !has_linebreak_app, Ha, Hb, Hc. done.
  - by destruct a.
Qed.

(** What was written comes back: records with clean fields, one line
    each, joined by line feeds, parse to the same records in the same
    order. *)
Lemma parse_failed_list_join (ks : list triple) :
  Forall comma_free ks → Forall one_line ks →
  parse_failed_list (Str.join (String Str.LF "") (map line_of ks)) = Ok ks.
Proof.
  intros Hc Hl. unfold parse_failed_list.
  rewrite splitlines_universal_newlines, splitlines_join.
  - clear Hl. induction Hc as [|k ks Hk Hks IH]; [done|]. simpl.
    rewrite split_line_of by done. destruct k as [[??]?]. simpl.
    unfold mbind, result_bind. by rewrite IH.
  - clear Hc. induction Hl as [|k ks Hk Hks IH]; constructor; [|done].
    by apply line_of_one_line.
Qed.

Lemma preimage_list {A B} (f : A → B) (l : list A) (xs : list B) :
  Forall (λ x, x ∈ map f l) xs → ∃ ys, xs = map f ys ∧ Forall (λ y, y ∈ l) ys.
Proof.
  induction 1 as [|x xs Hx Hxs (ys & -> & Hys)]; [by exists []|].
  apply list_elem_of_fmap in Hx as (y & -> & Hy). exists (y :: ys). by split; [|constructor].
Qed.

(** A load changes nothing and depends on the result directory and
    the files alone. *)
Lemma get_failed_list_eval precision w :
  _get_failed_list precision w
  = (load_ledger (Console.result_save_dir (self w)) precision (files w), w).
Proof.
  unfold _get_failed_list, load_ledger. run_method w c fs.
  unfold on_files, get. simpl.
  destruct (fs !! failed_list_file_path (Console.result_save_dir c) precision)
    as [text|]; [|done].
  unfold mbind, result_bind. by destruct (parse_failed_list text).
Qed.

Lemma get_failed_list_absent precision w :
  files w !! failed_list_file_path (Console.result_save_dir (self w)) precision = None →
  _get_failed_list precision w = (Ok None, w).
Proof.
  intros Hnone. rewrite get_failed_list_eval. unfold load_ledger. by rewrite Hnone.
Qed.

Lemma get_failed_list_present precision w text :
  files w !! failed_list_file_path (Console.result_save_dir (self w)) precision = Some text →
  _get_failed_list precision w
  = (match parse_failed_list text with Ok l => Ok (Some l) | Raise e => Raise e end, w).
Proof.
  intros Hsome. rewrite get_failed_list_eval. unfold load_ledger. by rewrite Hsome.
Qed.

End ledger.

(** ** Prerequisites of the stages *)

Section prerequisites.
Context `{Common} `{SetIteration}.
Implicit Types (w : world).

(** [creat_mapping] names the stage that is missing and touches
    nothing. *)
Lemma creat_mapping_needs_ligand_split precision w :
  Console.ligand_path_list (self w) = None →
  creat_mapping precision w = (Raise (RuntimeError "Please run ligand_split first."), w).
Proof.
  intros Hl. unfold creat_mapping. run_method w c fs. by rewrite Hl.
Qed.

Lemma creat_mapping_needs_grid_generate precision w paths :
  Console.ligand_path_list (self w) = Some paths →
  Console.grid_file_list (self w) = None →
  creat_mapping precision w = (Raise (RuntimeError "Please run grid_generate first."), w).
Proof.
  intros Hl Hg. unfold creat_mapping. run_method w c fs. by rewrite Hl, Hg.
Qed.

(** With both prerequisites, [creat_mapping] stores the ligand files,
    loads the ledger and stores the mapping built from the three. *)
Lemma creat_mapping_run precision w paths grids failed :
  Console.ligand_path_list (self w) = Some paths →
  Console.grid_file_list (self w) = Some grids →
  load_ledger (Console.result_save_dir (self w)) precision (files w) = Ok failed →
  creat_mapping precision w
  = (Ok tt,
     World (Console.set_mapping
              (_creat_mapping grids (map LigandFile_new paths) failed)
              (Console.set_ligand_file_list (map LigandFile_new paths) (self w)))
           (files w)).
Proof.
  intros Hl Hg Hload. unfold creat_mapping.
  destruct w as [c fs]. simpl in *.
  unfold mbind at 1, M_bind at 1, get_self at 1. simpl. rewrite Hl, Hg.
  unfold mbind at 1, M_bind at 1, set_self at 1, modify. simpl.
  unfold mbind at 1, M_bind at 1. rewrite get_failed_list_eval. simpl.
  by rewrite Hload.
Qed.

(** A ledger that does not parse stops [creat_mapping] after the
    ligand files are stored and before the mapping is. *)
Lemma creat_mapping_bad_ledger precision w paths grids e :
  Console.ligand_path_list (self w) = Some paths →
  Console.grid_file_list (self w) = Some grids →
  load_ledger (Console.result_save_dir (self w)) precision (files w) = Raise e →
  creat_mapping precision w
  = (Raise e,
     World (Console.set_ligand_file_list (map LigandFile_new paths) (self w)) (files w)).
Proof.
  intros Hl Hg Hload. unfold creat_mapping.
  destruct w as [c fs]. simpl in *.
  unfold mbind at 1, M_bind at 1, get_self at 1. simpl. rewrite Hl, Hg.
  unfold mbind at 1, M_bind at 1, set_self at 1, modify. simpl.
  unfold mbind at 1, M_bind at 1. rewrite get_failed_list_eval. simpl.
  by rewrite Hload.
Qed.

(** So does [multi_grid_generate]; the pool is not run. *)
Lemma multi_grid_generate_needs_minimize
    (grid_generate : pool_run MinimizedFile.t GridFile.t) num_parallel w :
  Console.minimized_file_list (self w) = None →
  multi_grid_generate grid_generate num_parallel w
  = (Raise (FileNotFoundError "No minimized file found. Please run minimize first."), w).
Proof.
  intros Hm. unfold multi_grid_generate. run_method w c fs. by rewrite Hm.
Qed.

(** The guard of [multi_dock] answers only when both lists of line 304
    exist while the mapping does not. *)
Lemma multi_dock_guard (dock : pool_run mapping_item DockResultFile.t)
    precision num_parallel w grids ligands :
  Console.grid_file_list (self w) = Some grids →
  Console.ligand_file_list (self w) = Some ligands →
  Console.mapping (self w) = None →
  multi_dock dock precision num_parallel w
  = (Raise (RuntimeError "Please run creat_mapping first."), w).
Proof.
  intros Hg Hl Hm. unfold multi_dock. run_method w c fs. by rewrite Hg, Hl, Hm.
Qed.

(** [ligand_file_list] and [mapping] are set by [creat_mapping] alone,
    the list first: a console on which [creat_mapping] never ran has
    neither. *)
Lemma fresh_console_lists pairs cwd :
  Console.ligand_file_list (Console.__init__ pairs cwd) = None
  ∧ Console.mapping (Console.__init__ pairs cwd) = None.
Proof. done. Qed.

Lemma setters_keep_ligand_file_list c paths grids results failed :
  Console.ligand_file_list (Console.set_ligand_path_list paths c) = Console.ligand_file_list c
  ∧ Console.ligand_file_list (Console.set_grid_file_list grids c) = Console.ligand_file_list c
  ∧ Console.ligand_file_list (Console.set_dock_file_list results c) = Console.ligand_file_list c
  ∧ Console.ligand_file_list (Console.set_docking_failed_list failed c)
    = Console.ligand_file_list c.
Proof. done. Qed.

End prerequisites.

(** C7, where the code departs from it.  [multi_dock] called while
    [grid_file_list] or [ligand_file_list] is still [None], as on every
    console on which [creat_mapping] has not run, stops at the debug
    message of line 304 with the [TypeError] of [len(None)]: the guard
    of line 309 and its message naming [creat_mapping] are not reached.
    Nothing is changed and the pool is not run. *)
Theorem multi_dock_before_creat_mapping `{SetIteration}
    (dock : pool_run mapping_item DockResultFile.t)
    (precision : string) (num_parallel : Z) (w : world) :
  Console.grid_file_list (self w) = None ∨ Console.ligand_file_list (self w) = None →
  multi_dock dock precision num_parallel w
  = (Raise (TypeError "object of type 'NoneType' has no len()"), w).
Proof.
  intros Hnone. unfold multi_dock. run_method w c fs.
  destruct (Console.grid_file_list c) as [grids|]; simpl; [|done].
  destruct Hnone as [?|Hl]; [done|]. by rewrite Hl.
Qed.

Lemma multi_dock_before_creat_mapping_witness :
  @multi_dock elements_iteration (Run.dock []) "SP" 3 (World Run.split_console ∅)
  = (Raise (TypeError "object of type 'NoneType' has no len()"), World Run.split_console ∅)
  ∧ @multi_dock elements_iteration (Run.dock []) "SP" 3
      (World (Console.__init__ [("R1", "L1")] "/work") ∅)
    = (Raise (TypeError "object of type 'NoneType' has no len()"),
       World (Console.__init__ [("R1", "L1")] "/work") ∅).
Proof.
  split.
  - apply (@multi_dock_before_creat_mapping elements_iteration). right. reflexivity.
  - apply (@multi_dock_before_creat_mapping elements_iteration). left. reflexivity.
Defined.

(** ** [multi_dock]: reconciliation *)

Section reconciliation.
Context `{SetIteration}.
Implicit Types (w : world) (dock : pool_run mapping_item DockResultFile.t).

Lemma failed_lines_NoDup mapping results : NoDup (failed_lines mapping results).
Proof.
  unfold failed_lines. rewrite iter_set_perm. apply NoDup_elements.
Qed.

Lemma elem_of_failed_lines mapping results x :
  x ∈ failed_lines mapping results
  ↔ x ∈ map total_line mapping ∧ x ∉ map success_line results.
Proof.
  unfold failed_lines. rewrite iter_set_perm, elem_of_elements.
  rewrite elem_of_difference, !elem_of_list_to_set. done.
Qed.

(** [multi_dock] once its three prerequisites are there and the pool
    has returned. *)
Lemma multi_dock_run dock precision num_parallel w grids ligands mapping results fs1 :
  Console.grid_file_list (self w) = Some grids →
  Console.ligand_file_list (self w) = Some ligands →
  Console.mapping (self w) = Some mapping →
  dock mapping num_parallel (files w) = (Ok results, fs1) →
  multi_dock dock precision num_parallel w
  = (Ok tt,
     World (Console.set_docking_failed_list (failed_lines mapping results)
              (Console.set_dock_file_list results (self w)))
           (if bool_decide (length (failed_lines mapping results) ≠ 0)
            then <[failed_list_file_path (Console.result_save_dir (self w)) precision
                   := Str.join (String Str.LF "") (failed_lines mapping results)]> fs1
            else fs1)).
Proof.
  intros Hg Hl Hm Hdock. destruct w as [c fs]. simpl in *.
  unfold multi_dock, get_self, mbind, M_bind, lift, run_pool, on_files, set_self, modify.
  simpl. rewrite Hg, Hl, Hm. simpl. rewrite Hdock. simpl.
  fold (failed_lines mapping results).
  by destruct (bool_decide (length (failed_lines mapping results) ≠ 0)).
Qed.

(** A successful [multi_dock] had its prerequisites and a pool that
    returned. *)
Lemma multi_dock_inv dock precision num_parallel w w' :
  multi_dock dock precision num_parallel w = (Ok tt, w') →
  ∃ grids ligands mapping results fs1,
    Console.grid_file_list (self w) = Some grids
    ∧ Console.ligand_file_list (self w) = Some ligands
    ∧ Console.mapping (self w) = Some mapping
    ∧ dock mapping num_parallel (files w) = (Ok results, fs1).
Proof.
  destruct w as [c fs].
  unfold multi_dock, get_self, mbind, M_bind, lift, run_pool, on_files, raise. simpl.
  destruct (Console.grid_file_list c) as [grids|]; simpl; [|done].
  destruct (Console.ligand_file_list c) as [ligands|]; simpl; [|done].
  destruct (Console.mapping c) as [mapping|]; simpl; [|done].
  destruct (dock mapping num_parallel fs) as [[results|e] fs1] eqn:Hdock; simpl; [|done].
  intros _. by exists grids, ligands, mapping, results, fs1.
Qed.

End reconciliation.

(** The ledger files of two precisions are two files. *)
Section paths.
Implicit Types (s t u : string).

Lemma length_append s t : String.length (s +:+ t) = String.length s + String.length t.
Proof.
  induction s as [|c s IH]; [done|].
  change (S (String.length (s +:+ t)) = S (String.length s + String.length t)).
  by rewrite IH.
Qed.

Lemma append_inj_r s t u : s +:+ u = t +:+ u → s = t.
Proof.
  revert t. induction s as [|c s IH]; intros [|c' t] Heq; [done| | |].
  - apply (f_equal String.length) in Heq.
    change (String.length u = S (String.length (t +:+ u))) in Heq.
    rewrite length_append in Heq. lia.
  - apply (f_equal String.length) in Heq.
    change (S (String.length (s +:+ u)) = String.length u) in Heq.
    rewrite length_append in Heq. lia.
  - change (String c (s +:+ u) = String c' (t +:+ u)) in Heq.
    injection Heq as -> Heq. f_equal. by apply IH.
Qed.

(** [os.path.join(a, b)] keeps apart relative names that differ. *)
Lemma path_join_inj a b b' c0 c0' :
  c0 ≠ "/"%char → c0' ≠ "/"%char →
  Str.path_join a (String c0 b) = Str.path_join a (String c0' b') →
  String c0 b = String c0' b'.
Proof.
  intros Hc Hc'. unfold Str.path_join.
  assert (∀ c r (X Y : string), c ≠ "/"%char →
            match String c r with String "/" _ => X | _ => Y end = Y) as Hrel.
  { intros c r X Y Hne. destruct c as [[] [] [] [] [] [] [] []]; try done. }
  rewrite !Hrel by done.
  destruct (bool_decide (a = "") || Str.ends_with_slash a); intros Heq.
  - by apply (inj (String.app a)) in Heq.
  - apply (inj (String.app a)) in Heq. by apply (inj (String.app "/")) in Heq.
Qed.

Lemma failed_list_file_path_inj dir p q :
  failed_list_file_path dir p = failed_list_file_path dir q → p = q.
Proof.
  unfold failed_list_file_path. intros Heq.
  change ("docking_failed_" +:+ p +:+ ".csv")
    with (String "d" ("ocking_failed_" +:+ p +:+ ".csv")) in Heq.
  change ("docking_failed_" +:+ q +:+ ".csv")
    with (String "d" ("ocking_failed_" +:+ q +:+ ".csv")) in Heq.
  apply path_join_inj in Heq; [|done..].
  injection Heq as Heq. change (p +:+ ".csv" = q +:+ ".csv") in Heq.
  by apply append_inj_r in Heq.
Qed.

End paths.

(** C3.  A [multi_dock] that returns has run the pool on the submitted
    mapping; [docking_failed_list] then enumerates, without repetition,
    the set difference between the key lines of the submitted entries
    and the key lines of the returned dock results, which for fields
    without commas is the set difference of the key triples themselves.
    When that list is non-empty the file
    [<result_save_dir>/docking_failed_<precision>.csv] is set to exactly
    these lines, whatever it held before; when it is empty no file is
    written.  Either way the ledger file of every other precision is as
    the docking tasks left it. *)
Theorem multi_dock_reconciliation `{SetIteration}
    (dock : pool_run mapping_item DockResultFile.t)
    (precision : string) (num_parallel : Z) (w w' : world) :
  multi_dock dock precision num_parallel w = (Ok tt, w') →
  let ledger (precision : string) :=
    Str.path_join (Console.result_save_dir (self w))
      ("docking_failed_" +:+ precision +:+ ".csv") in
  ∃ mapping results fs1 failed,
    Console.mapping (self w) = Some mapping
    ∧ dock mapping num_parallel (files w) = (Ok results, fs1)
    ∧ Console.dock_file_list (self w') = Some results
    ∧ Console.docking_failed_list (self w') = Some failed
    ∧ NoDup failed
    ∧ (∀ x, x ∈ failed
         ↔ x ∈ map (λ m, line_of (dock_key m)) mapping
           ∧ x ∉ map (λ r, line_of (result_key r)) results)
    ∧ (Forall comma_free (map dock_key mapping) →
       Forall comma_free (map result_key results) →
       ∀ t, comma_free t →
         line_of t ∈ failed ↔ t ∈ map dock_key mapping ∧ t ∉ map result_key results)
    ∧ (failed ≠ [] →
       files w' = <[ledger precision := Str.join (String Str.LF "") failed]> fs1)
    ∧ (failed = [] → files w' = fs1)
    ∧ (∀ other, other ≠ precision →
         ledger other ≠ ledger precision ∧ files w' !! ledger other = fs1 !! ledger other).
Proof.
  intros Hrun ledger.
  destruct (multi_dock_inv _ _ _ _ _ Hrun)
    as (grids & ligands & mapping & results & fs1 & Hg & Hl & Hm & Hdock).
  rewrite (multi_dock_run _ _ _ _ _ _ _ _ _ Hg Hl Hm Hdock) in Hrun.
  injection Hrun as <-. simpl.
  change (failed_list_file_path (Console.result_save_dir (self w)) precision)
    with (ledger precision).
  assert (∀ other, other ≠ precision → ledger other ≠ ledger precision) as Hapart.
  { intros other Hne Heq. by apply Hne, (failed_list_file_path_inj _ _ _ Heq). }
  exists mapping, results, fs1, (failed_lines mapping results).
  split_and!; try done.
  - apply failed_lines_NoDup.
  - apply elem_of_failed_lines.
  - intros Hmc Hrc t Ht. rewrite elem_of_failed_lines.
    rewrite Forall_forall in Hmc, Hrc. split.
    + intros [Hin Hout]. split.
      * apply list_elem_of_fmap in Hin as (m & Heq & Hin).
        rewrite total_line_of in Heq. apply line_of_inj in Heq as ->; [|done|].
        -- apply list_elem_of_fmap. eauto.
        -- apply Hmc, list_elem_of_fmap. eauto.
      * intros Hin'. apply Hout.
        apply list_elem_of_fmap in Hin' as (r & -> & Hr).
        apply list_elem_of_fmap. eauto.
    + intros [Hin Hout]. split.
      * apply list_elem_of_fmap in Hin as (m & -> & Hin).
        apply list_elem_of_fmap. eauto.
      * intros Hin'. apply Hout.
        apply list_elem_of_fmap in Hin' as (r & Heq & Hr).
        rewrite success_line_of in Heq. apply line_of_inj in Heq as ->; [|done|].
        -- apply list_elem_of_fmap. eauto.
        -- apply Hrc, list_elem_of_fmap. eauto.
  - intros Hne. rewrite bool_decide_true; [done|].
    by destruct (failed_lines mapping results).
  - intros Heq. rewrite Heq. done.
  - intros other Hne. split; [by apply Hapart|].
    destruct (bool_decide _); [|done].
    rewrite lookup_insert_ne; [done|]. intros Heq. by apply (Hapart other).
Qed.

Lemma multi_dock_reconciliation_witness :
  let w := World Run.mapped_console
             {[ "/work/result/docking_failed_SP.csv" := "R1,L1,A" ]} in
  ∃ w',
    @multi_dock elements_iteration (Run.dock [("R2", "L2", "C")]) "XP" 3 w = (Ok tt, w')
    ∧ Console.docking_failed_list (self w') = Some ["R2,L2,C"]
    ∧ files w' !! "/work/result/docking_failed_XP.csv" = Some "R2,L2,C"
    ∧ files w' !! "/work/result/docking_failed_SP.csv" = Some "R1,L1,A".
Proof.
  intros w.
  destruct (@multi_dock elements_iteration (Run.dock [("R2", "L2", "C")]) "XP" 3 w)
    as [out w'] eqn:Hrun.
  assert (out = Ok tt ∧ Console.docking_failed_list (self w') = Some ["R2,L2,C"])
    as [-> Hlist].
  { vm_compute in Hrun. injection Hrun as <- <-. split; reflexivity. }
  destruct (@multi_dock_reconciliation elements_iteration
              (Run.dock [("R2", "L2", "C")]) "XP" 3 w w' Hrun)
    as (mapping & results & fs1 & failed & Hm & Hdock & Hres & Hfailed & _ & _ & _
        & Hwrite & _ & Hother).
  rewrite Hlist in Hfailed. injection Hfailed as <-.
  assert (fs1 = files w) as ->.
  { clear -Hdock. unfold Run.dock in Hdock. by injection Hdock as _ <-. }
  exists w'. split; [done|]. split; [done|]. split.
  - rewrite Hwrite by done. apply lookup_insert_eq.
  - destruct (Hother "SP" ltac:(done)) as [_ Hsp]. exact Hsp.
Defined.

(** ** The ledger round trip *)

Lemma creat_mapping_omits (ts : list triple) (g : GridFile.t) (l : LigandFile.t)
    (G : list GridFile.t) (L : list LigandFile.t) :
  dock_key (g, l) ∈ ts →
  GridFile.ligand g = GridFile.internal_ligand g →
  (g, l) ∉ _creat_mapping G L (Some ts).
Proof.
  intros Hin Hlig. rewrite creat_mapping_filter, list_elem_of_filter. simpl.
  intros [Hkept _]. apply Hkept.
  unfold item_key, mapping_key. simpl. rewrite Hlig. exact Hin.
Qed.



(** The omission rests on the two attributes of the grid naming the
    same ligand.  For a grid whose [ligand] is [LIG] and whose
    [internal_ligand] is [L1], the failed pair is recorded as
    [R1,L1,A], the record is loaded back, and the next mapping holds
    the pair again: line 143 looks for [(R1, LIG, A)]. *)
Lemma ledger_round_trip_attribute_mismatch :
  let g := GridFile.mk "R1" "LIG" "L1" "/work/grid/R1_glide-grid_L1.zip" in
  let c :=
    Console.set_mapping [(g, Run.A)]
      (Console.set_ligand_file_list [Run.A]
         (Console.set_ligand_path_list ["/work/ligands/A.mae"]
            (Console.set_grid_file_list [g] (Console.__init__ [("R1", "L1")] "/work")))) in
  ∃ w' w'',
    @multi_dock elements_iteration (Run.dock [("R1", "L1", "A")]) "SP" 3 (World c ∅)
    = (Ok tt, w')
    ∧ Console.docking_failed_list (self w') = Some ["R1,L1,A"]
    ∧ files w' !! "/work/result/docking_failed_SP.csv" = Some "R1,L1,A"
    ∧ _get_failed_list "SP" w' = (Ok (Some [("R1", "L1", "A")]), w')
    ∧ @creat_mapping Run.common "SP" w' = (Ok tt, w'')
    ∧ Console.mapping (self w'') = Some [(g, Run.A)]
    ∧ ¬ (∀ G L, (g, Run.A) ∉ _creat_mapping G L (Some [("R1", "L1", "A")])).
Proof.
  intros g c.
  destruct (@multi_dock elements_iteration (Run.dock [("R1", "L1", "A")]) "SP" 3 (World c ∅))
    as [out w'] eqn:Hdock.
  vm_compute in Hdock. injection Hdock as <- <-.
  destruct (@creat_mapping Run.common "SP"
              (World (Console.set_docking_failed_list ["R1,L1,A"]
                        (Console.set_dock_file_list [] c))
                 {[ "/work/result/docking_failed_SP.csv" := "R1,L1,A" ]}))
    as [out w''] eqn:Hmap.
  vm_compute in Hmap. injection Hmap as <- <-.
  eexists _, _. split_and!; try (by vm_compute).
  intros Hout. apply (Hout [g] [Run.A]). by vm_compute; left.
Qed.

(** A comma inside a field is not escaped when written, and the load
    then finds four fields where it unpacks three. *)
Example comma_in_ligand_name :
  line_of ("R1", "L1", "0-2,4-D") = "R1,L1,0-2,4-D"
  ∧ parse_failed_list "R1,L1,0-2,4-D"
    = Raise (ValueError "too many values to unpack (expected 3)").
Proof. split; reflexivity. Qed.

(** The end-to-end scenario: six pairs, the docking of [R2]/[C] fails,
    the ledger gets the line [R2,L2,C], and the next mapping has the
    five other pairs. *)
Example end_to_end_scenario :
  let w0 := World Run.split_console ∅ in
  let w1 := (@creat_mapping Run.common "SP" w0).2 in
  let w2 := (@multi_dock elements_iteration (Run.dock [("R2", "L2", "C")]) "SP" 3 w1).2 in
  let w3 := (@creat_mapping Run.common "SP" w2).2 in
  Console.mapping (self w1)
  = Some [(Run.R1, Run.A); (Run.R1, Run.B); (Run.R1, Run.C);
          (Run.R2, Run.A); (Run.R2, Run.B); (Run.R2, Run.C)]
  ∧ files w2 !! "/work/result/docking_failed_SP.csv" = Some "R2,L2,C"
  ∧ Console.mapping (self w3)
    = Some [(Run.R1, Run.A); (Run.R1, Run.B); (Run.R1, Run.C);
            (Run.R2, Run.A); (Run.R2, Run.B)].
Proof. by vm_compute. Qed.

(** ** Loading a ledger that does not exist *)

(** The load answers [None], which is not the empty list. *)
Lemma get_failed_list_absent_is_None :
  (_get_failed_list "SP" (World (Console.__init__ [] "/work") ∅)).1 ≠ Ok (Some []).
Proof. by vm_compute. Qed.

(** C5, as the code has it.  When the ledger file of the precision does
    not exist, [_get_failed_list] raises nothing, changes nothing and
    returns [None]; [_creat_mapping] reads [None] as the empty
    exclusion list. *)
Theorem get_failed_list_no_file (precision : string) (w : world) :
  files w !! failed_list_file_path (Console.result_save_dir (self w)) precision = None →
  _get_failed_list precision w = (Ok None, w)
  ∧ ∀ G L, _creat_mapping G L None = _creat_mapping G L (Some [])
           ∧ _creat_mapping G L None = cross G L.
Proof.
  intros Hnone. split; [by apply get_failed_list_absent|].
  intros G L. split; [done|].
  by rewrite creat_mapping_filter, filter_kept_nil.
Qed.

Lemma get_failed_list_no_file_witness :
  let w := World Run.split_console ∅ in
  _get_failed_list "SP" w = (Ok None, w)
  ∧ ∀ G L, _creat_mapping G L None = _creat_mapping G L (Some [])
           ∧ _creat_mapping G L None = cross G L.
Proof.
  intros w. apply (get_failed_list_no_file "SP" w). reflexivity.
Defined.

(** ** [multi_extract_data] without a ledger *)

Section extract.
Context `{Common} {D : Type}.
Implicit Types (extra_docking_data : pool_run DockResultFile.t D) (w : world).

(** With no pair or no ligand the membership test is never reached. *)
Lemma multi_extract_data_no_pairs extra_docking_data precision num_parallel w paths :
  Console.dock_file_list (self w) = None →
  Console.ligand_path_list (self w) = Some paths →
  Console.pairs_list (self w) = [] →
  files w !! failed_list_file_path (Console.result_save_dir (self w)) precision = None →
  multi_extract_data extra_docking_data precision num_parallel w
  = run_pool extra_docking_data [] num_parallel
      (World (Console.set_dock_file_list [] (self w)) (files w)).
Proof.
  intros Hd Hl Hp Hnone. destruct w as [c fs]. simpl in *.
  unfold multi_extract_data, mbind, M_bind, get_self. simpl. rewrite Hd, Hl. simpl.
  rewrite (get_failed_list_absent precision (World c fs)) by done.
  rewrite Hp. simpl. done.
Qed.

End extract.

(** With a ledger file in place the same call goes through: the pair
    on record is skipped and the other five results are extracted. *)
Example multi_extract_data_with_ledger :
  let w := World Run.split_console {[ "/work/result/docking_failed_SP.csv" := "R2,L2,C" ]} in
  let extra : pool_run DockResultFile.t string :=
    λ items _ fs, (Ok (map DockResultFile.file_path items), fs) in
  (@multi_extract_data Run.common string extra "SP" 3 w).1
  = Ok ["/work/dockfiles/R1/R1_L1_glide-dock_A_SP.maegz";
        "/work/dockfiles/R1/R1_L1_glide-dock_B_SP.maegz";
        "/work/dockfiles/R1/R1_L1_glide-dock_C_SP.maegz";
        "/work/dockfiles/R2/R2_L2_glide-dock_A_SP.maegz";
        "/work/dockfiles/R2/R2_L2_glide-dock_B_SP.maegz"].
Proof. by vm_compute. Qed.

(** C10.  [multi_extract_data] called with no dock result list in
    memory and no ledger file for the precision, once ligands have been
    split and there is a pair to look at: the first exclusion check
    tests membership in the [None] that the ledger load returned and
    raises [TypeError]; the pool is not run and nothing is extracted. *)
Theorem multi_extract_data_no_ledger `{Common} {D : Type}
    (extra_docking_data : pool_run DockResultFile.t D)
    (precision : string) (num_parallel : Z) (w : world)
    (pair : string * string) (pairs : list (string * string))
    (path : string) (paths : list string) :
  Console.dock_file_list (self w) = None →
  Console.ligand_path_list (self w) = Some (path :: paths) →
  Console.pairs_list (self w) = pair :: pairs →
  files w !! failed_list_file_path (Console.result_save_dir (self w)) precision = None →
  _get_failed_list precision w = (Ok None, w)
  ∧ multi_extract_data extra_docking_data precision num_parallel w
    = (Raise (TypeError "argument of type 'NoneType' is not iterable"), w).
Proof.
  intros Hd Hl Hp Hnone. split; [by apply get_failed_list_absent|].
  destruct w as [c fs]. simpl in *.
  unfold multi_extract_data, mbind, M_bind, get_self. simpl. rewrite Hd, Hl. simpl.
  rewrite (get_failed_list_absent precision (World c fs)) by done.
  rewrite Hp. destruct pair as [pdbid ligid]. done.
Qed.

Lemma multi_extract_data_no_ledger_witness :
  let w := World Run.split_console ∅ in
  let extra : pool_run DockResultFile.t string :=
    λ items _ fs, (Ok (map DockResultFile.file_path items), fs) in
  _get_failed_list "SP" w = (Ok None, w)
  ∧ @multi_extract_data Run.common string extra "SP" 3 w
    = (Raise (TypeError "argument of type 'NoneType' is not iterable"), w).
Proof.
  intros w extra.
  apply (@multi_extract_data_no_ledger Run.common string extra "SP" 3 w
           ("R1", "L1") [("R2", "L2")]
           "/work/ligands/A.mae" ["/work/ligands/B.mae"; "/work/ligands/C.mae"]);
    reflexivity.
Defined.

(** ** The default worker count *)

Example NUM_PARALLEL_values :
  NUM_PARALLEL 8 = 6%Z ∧ NUM_PARALLEL 6 = 3%Z ∧ NUM_PARALLEL 4 = 3%Z
  ∧ NUM_PARALLEL 3 = 0%Z ∧ NUM_PARALLEL 1 = 0%Z.
Proof. done. Qed.

(** On six cores the default is three workers, which is neither 3/4
    of six nor its integer part. *)
Lemma NUM_PARALLEL_six_cores :
  (4 * NUM_PARALLEL 6 ≠ 3 * 6)%Z ∧ NUM_PARALLEL 6 ≠ ((3 * 6) `div` 4)%Z.
Proof. split; intros Heq; vm_compute in Heq; discriminate. Qed.

(** C9, as the code has it.  The default worker count is three times
    the integer quotient of the core count by four.  It is 3/4 of the
    core count exactly when the core count is a multiple of four, and
    otherwise falls short of it by 3/4 of the remainder. *)
Theorem NUM_PARALLEL_three_quarters (cpu_count : Z) :
  NUM_PARALLEL cpu_count = (3 * (cpu_count `div` 4))%Z
  ∧ (4 * NUM_PARALLEL cpu_count = 3 * cpu_count - 3 * (cpu_count `mod` 4))%Z
  ∧ ((4 * NUM_PARALLEL cpu_count = 3 * cpu_count)%Z ↔ (cpu_count `mod` 4 = 0)%Z).
Proof.
  unfold NUM_PARALLEL.
  pose proof (Z.div_mod cpu_count 4 ltac:(done)) as Hdm.
  pose proof (Z.mod_pos_bound cpu_count 4 ltac:(done)) as Hmod.
  split_and!; [lia|lia|]. split; lia.
Qed.

(** ** [split_ligand]: labels *)

Section labels.
Implicit Types (i j : nat) (st : Structure.t).

Lemma string_of_uint_no_dash d : Str.contains "-"%char (NilEmpty.string_of_uint d) = false.
Proof. induction d; simpl; done. Qed.

Lemma of_nat_inj i j : Str.of_nat i = Str.of_nat j → i = j.
Proof.
  unfold Str.of_nat. intros Heq.
  assert (Some (Nat.to_uint i) = Some (Nat.to_uint j)) as Hsome.
  { by rewrite <- !NilEmpty.usu, Heq. }
  injection Hsome as Hu.
  by rewrite <- (Unsigned.of_to i), <- (Unsigned.of_to j), Hu.
Qed.

(** The index can be read off a label: it is what stands before the
    first dash. *)
Lemma split_st_name i (title : value) :
  Str.split "-"%char (st_name_of i title)
  = Str.of_nat i :: Str.split "-"%char (value_str title).
Proof.
  unfold st_name_of.
  change ("-" +:+ value_str title) with (String "-"%char (value_str title)).
  apply split_app_sep, string_of_uint_no_dash.
Qed.

Lemma st_name_of_inj i j (t t' : value) : st_name_of i t = st_name_of j t' → i = j.
Proof.
  intros Heq. apply of_nat_inj.
  pose proof (split_st_name i t) as Hi. rewrite Heq, split_st_name in Hi.
  by injection Hi.
Qed.

Lemma elem_of_imap_pair {A} (l : list A) i (x : A) : (i, x) ∈ imap pair l ↔ l !! i = Some x.
Proof.
  rewrite list_elem_of_lookup. split.
  - intros (k & Hk). rewrite list_lookup_imap in Hk.
    destruct (l !! k) eqn:Hl; simpl in Hk; [|done]. by simplify_eq.
  - intros Hl. exists i. by rewrite list_lookup_imap, Hl.
Qed.

Lemma NoDup_imap_pair {A} (l : list A) : NoDup (imap pair l).
Proof.
  apply NoDup_alt. intros k1 k2 [i x]. rewrite !list_lookup_imap.
  destruct (l !! k1) eqn:H1, (l !! k2) eqn:H2; simpl; try done.
  intros ??. by simplify_eq.
Qed.

Lemma structure_labels_NoDup (structures : list Structure.t) :
  NoDup (map structure_label (imap pair structures)).
Proof.
  apply (NoDup_fmap_2_strong structure_label); [|apply NoDup_imap_pair].
  intros [i st] [j st'] Hi Hj Heq. apply st_name_of_inj in Heq. simpl in Heq. subst j.
  apply elem_of_imap_pair in Hi, Hj. by simplify_eq.
Qed.

Example duplicate_titles_distinct_labels :
  let st := Structure.mk {[ "s_m_title" := Text "aspirin" ]} in
  map structure_label (imap pair [st; st]) = ["0-aspirin"; "1-aspirin"].
Proof. by vm_compute. Qed.

End labels.

Example activity_label_name_order :
  activity_label_name
  = ["b_user_Activity"; "b_user_activity"; "s_user_Activity"; "s_user_activity"].
Proof. reflexivity. Qed.

Section split_ligand.
Context `{Common}.
Implicit Types (st : Structure.t) (fs : FS) (es : list (nat * Structure.t)).

Lemma find_activity_keeps_index (property : gmap string value) (v : value) :
  find_activity (<["i_user_StructureIndex" := v]> property) activity_label_name
  = find_activity property activity_label_name.
Proof.
  unfold activity_label_name. simpl.
  by rewrite !lookup_insert_ne by done.
Qed.

Lemma split_ligand_step dir overwrite labels paths i st fs :
  is_Some (Structure.property st !! "s_m_title") →
  ∃ fs', split_ligand_body dir overwrite (labels, paths) (i, st) fs
         = (Ok (labels ++ [label_line (i, st)],
                paths ++ [Str.path_join dir (structure_label (i, st) +:+ ".mae")]), fs').
Proof.
  intros [title Htitle].
  unfold split_ligand_body, property_get, mbind, M_bind, lift, get.
  cbn [Structure.property]. rewrite Htitle, find_activity_keeps_index.
  unfold label_line, structure_label, title_of. cbn [fst snd]. rewrite Htitle.
  cbn [default]. destruct (negb _ || overwrite); eauto.
Qed.

Lemma split_ligand_loop dir overwrite es labels paths fs :
  Forall (λ e, is_Some (Structure.property e.2 !! "s_m_title")) es →
  ∃ fs', for_each es (split_ligand_body dir overwrite) (labels, paths) fs
         = (Ok (labels ++ map label_line es,
                paths ++ map (λ e, Str.path_join dir (structure_label e +:+ ".mae")) es),
            fs').
Proof.
  intros Hes. revert labels paths fs.
  induction Hes as [|[i st] es Hst Hes IH]; intros labels paths fs; cbn [for_each map].
  - rewrite !app_nil_r. by eexists.
  - destruct (split_ligand_step dir overwrite labels paths i st fs Hst) as (fs1 & Hstep).
    unfold mbind at 1, M_bind at 1. rewrite Hstep.
    destruct (IH (labels ++ [label_line (i, st)])
                 (paths ++ [Str.path_join dir (structure_label (i, st) +:+ ".mae")]) fs1)
      as (fs2 & Hloop).
    exists fs2. rewrite Hloop. by rewrite <- !app_assoc.
Qed.

Lemma label_line_nonempty e : label_line e ≠ "".
Proof.
  destruct e as [i st]. unfold label_line, structure_label, st_name_of. simpl.
  intros Heq.
  assert (Str.contains "-"%char "" = true) as Hc; [|done].
  rewrite <- Heq. rewrite !contains_app. simpl. by rewrite orb_true_r.
Qed.

End split_ligand.

(** C8.  For a ligand file whose structures all carry a title,
    [split_ligand] returns one path per structure, named after the label
    [{index}-{title}] of the structure at position [index]; the labels
    are pairwise distinct whatever the titles; and [label.csv] in the
    save directory holds the lines [label,activity], one per structure
    in file order, joined by line feeds (read back as exactly these
    lines when no line holds a line boundary). *)
Theorem split_ligand_labels `{Common} (ligand_file : LigandFile.t)
    (save_dir : option string) (overwrite : bool) (fs : FS) :
  Forall (λ st, is_Some (Structure.property st !! "s_m_title"))
         (LigandFile.structures ligand_file) →
  let dir := default (LigandFile.file_dir ligand_file) save_dir in
  let entries := imap pair (LigandFile.structures ligand_file) in
  ∃ fs',
    split_ligand ligand_file save_dir overwrite fs
    = (Ok (map (λ e, Str.path_join dir (structure_label e +:+ ".mae")) entries), fs')
    ∧ (∀ i st, LigandFile.structures ligand_file !! i = Some st →
         map structure_label entries !! i
         = Some (Str.of_nat i +:+ "-" +:+ value_str (title_of st)))
    ∧ NoDup (map structure_label entries)
    ∧ fs' !! Str.path_join dir "label.csv"
      = Some (Str.join (String Str.LF "") (map label_line entries))
    ∧ length (map label_line entries) = length (LigandFile.structures ligand_file)
    ∧ (Forall (λ e, Str.has_linebreak (label_line e) = false) entries →
       Str.splitlines (Str.join (String Str.LF "") (map label_line entries))
       = map label_line entries).
Proof.
  intros Htitles dir entries.
  assert (Forall (λ e : nat * Structure.t,
                    is_Some (Structure.property e.2 !! "s_m_title")) entries) as Hes.
  { apply Forall_forall. intros [i st] Hin. apply elem_of_imap_pair in Hin.
    rewrite Forall_forall in Htitles. apply Htitles. by eapply list_elem_of_lookup_2. }
  destruct (split_ligand_loop dir overwrite entries [] [] fs Hes) as (fs1 & Hloop).
  eexists. split_and!.
  - unfold split_ligand, mbind, M_bind. fold dir entries. rewrite Hloop. simpl.
    reflexivity.
  - intros i st Hst. rewrite list_lookup_fmap. unfold entries.
    by rewrite list_lookup_imap, Hst.
  - apply structure_labels_NoDup.
  - apply lookup_insert_eq.
  - unfold entries. by rewrite length_map, length_imap.
  - intros Hlb. apply splitlines_join.
    apply Forall_forall. intros x Hx. apply list_elem_of_fmap in Hx as (e & -> & He).
    rewrite Forall_forall in Hlb. split; [by apply Hlb|apply label_line_nonempty].
Qed.

Lemma split_ligand_labels_witness :
  let st1 := Structure.mk {[ "s_m_title" := Text "aspirin"; "b_user_Activity" := Bool true ]} in
  let st2 := Structure.mk {[ "s_m_title" := Text "aspirin" ]} in
  let lib := LigandFile.mk "/lib/all.mae" "/lib" "all.mae" "all" [st1; st2] in
  ∃ fs',
    @split_ligand Run.common lib (Some "/work/ligands") false ∅
    = (Ok ["/work/ligands/0-aspirin.mae"; "/work/ligands/1-aspirin.mae"], fs')
    ∧ fs' !! "/work/ligands/label.csv"
      = Some ("0-aspirin,True" +:+ String Str.LF "1-aspirin,").
Proof.
  intros st1 st2 lib.
  destruct (@split_ligand_labels Run.common lib (Some "/work/ligands") false ∅)
    as (fs' & Hrun & _ & _ & Hcsv & _).
  { apply (bool_decide_unpack _). by vm_compute. }
  exists fs'. split; [exact Hrun|exact Hcsv].
Defined.

(** ** How an exception is logged *)

Example exn_str_KeyError :
  exn_str (KeyError "s_m_title") = "'s_m_title'"
  ∧ exn_str (KeyError "it's")
    = String Str.quotation ("it's" +:+ String Str.quotation "")
  ∧ exn_str (KeyError (String Str.LF "")) = "'" +:+ String Str.backslash "n'"
  ∧ exn_str (KeyError (String (Ascii.ascii_of_nat 27) "")) = "'" +:+ String Str.backslash "x1b'".
Proof. by vm_compute. Qed.

(** ** The parallel task runner *)

Section runner_properties.
Context {I R : Type}.
Variable func_name : string.
Variable item_str : I → string.
Variable func : I → behaviour R.
Variable transport : result R → fate.
Variable kwargs : list (string * string).
Implicit Types (st : pool_state I R) (item : I) (timeout : nat).

Local Abbreviation call := (_func_timeout func_name item_str func kwargs).
Local Abbreviation sent := (send transport).
Local Abbreviation task := (worker func_name item_str func transport kwargs).
Local Abbreviation holds := (holds_worker func_name item_str func transport kwargs).
Local Abbreviation step := (pool_step func_name item_str func transport kwargs).
Local Abbreviation res_of := (result_of func_name item_str func transport kwargs).
Local Abbreviation warn_of := (warning_of func_name item_str func transport kwargs).
Local Abbreviation is_dropped := (dropped func_name item_str func transport kwargs).
Local Abbreviation comes_back := (delivered func_name item_str func transport kwargs).
Local Abbreviation is_clean := (clean func_name item_str func transport kwargs).
Local Abbreviation inv := (pool_inv func_name item_str func transport kwargs).

(** An exception never turns into a result on its way. *)
Lemma send_Raise e r : sent (Raise e) ≠ Result r.
Proof. unfold send. by destruct (transport (Raise e)). Qed.

Lemma except_clause_Raise timeout item e :
  ∃ e', except_clause func_name item_str kwargs timeout item (Raise e : result R) = Raise e'.
Proof. destruct e; simpl; eauto. Qed.

Lemma worker_unsent timeout item e :
  func item = Unsent (Some e) → task item timeout = Failure e.
Proof. intros Hfunc. unfold worker. by rewrite Hfunc. Qed.

(** A call that raises, or that the alarm finds still running, ends
    with an exception, unless the operation catches the exception of
    the alarm. *)
Lemma call_raises timeout item :
  ¬ catches func item → raises func item ∨ times_out func timeout item →
  ∃ e, call item timeout = Some (Raise e).
Proof.
  intros Hpass Hbad. unfold _func_timeout, raises, times_out, catches in *.
  destruct (func item) as [secs out| |[[secs out]|] after|secs out w|reported]; simpl in *.
  - destruct (bool_decide (0 < timeout ≤ secs)) eqn:Halarm; [by eauto|].
    apply bool_decide_eq_false in Halarm.
    destruct Hbad as [(? & e & [= <- ->])|[Hpos [|(? & ? & [= <- <-] & Hle)]]];
      [|done|lia].
    destruct (except_clause_Raise timeout item e) as [e' ->]. by eauto.
  - destruct Hbad as [(? & ? & ?)|[Hpos _]]; [done|].
    rewrite bool_decide_eq_true_2 by done. by eauto.
  - destruct Hpass. by eexists _, _.
  - destruct Hpass. by eexists _, _.
  - destruct (bool_decide (0 < timeout ≤ secs)) eqn:Halarm; [by eauto|].
    apply bool_decide_eq_false in Halarm.
    destruct Hbad as [(? & e & [= <- ->])|[Hpos [|(? & ? & [= <- <-] & Hle)]]];
      [|done|lia].
    destruct (except_clause_Raise timeout item e) as [e' He'].
    destruct (bool_decide (0 < timeout)), w; rewrite ?He'; by eauto.
  - destruct Hbad as [(? & ? & ?)|[_ [?|(? & ? & ? & _)]]]; done.
Qed.

Lemma raise_or_timeout_no_result timeout item :
  ¬ catches func item → raises func item ∨ times_out func timeout item →
  res_of timeout item = None.
Proof.
  intros Hpass Hbad. destruct (call_raises timeout item Hpass Hbad) as [e He].
  assert (match sent (Raise e) with Result r => Some r | _ => None end = None) as Hnone.
  { pose proof (send_Raise e) as Hne. destruct (sent (Raise e)) as [r| | |]; try done.
    by destruct (Hne r). }
  unfold result_of, worker. rewrite He.
  destruct (func item) as [| | |secs out w|[reported|]]; try done.
  destruct w as [| |[reported|]]; try done;
    by destruct (bool_decide (secs < timeout)).
Qed.

Lemma delivered_cases timeout item :
  comes_back timeout item ↔
  (∃ r, task item timeout = Result r) ∨ (∃ e, task item timeout = Failure e).
Proof.
  unfold delivered. destruct (task item timeout); split; try done; eauto.
  - intros [[? ?]|[? ?]]; done.
  - intros [[? ?]|[? ?]]; done.
Qed.

(** Among the tasks that come back, those that return and those that
    are dropped add up. *)
Lemma kept_plus_dropped timeout (items : list I) :
  Forall (comes_back timeout) items →
  length (omap (res_of timeout) items)
  + length (filter (λ item, is_dropped timeout item = true) items)
  = length items.
Proof.
  induction 1 as [|item items Hitem Hitems IH]; [done|].
  rewrite filter_cons. simpl.
  change (list_omap I R (res_of timeout) items) with (omap (res_of timeout) items).
  apply delivered_cases in Hitem as [[r Hr]|[e He]].
  - assert (res_of timeout item = Some r) as -> by (unfold result_of; by rewrite Hr).
    rewrite decide_False; [simpl; lia|]. unfold dropped. by rewrite Hr.
  - assert (res_of timeout item = None) as -> by (unfold result_of; by rewrite He).
    rewrite decide_True; [simpl; lia|]. unfold dropped. by rewrite He.
Qed.

Lemma warning_of_dropped timeout item :
  is_Some (warn_of timeout item) ↔ is_dropped timeout item = true.
Proof.
  unfold warning_of, dropped. destruct (task item timeout); split; try done;
    by intros [? ?].
Qed.

Lemma warnings_count timeout (items : list I) :
  length (omap (warn_of timeout) items)
  = length (filter (λ item, is_dropped timeout item = true) items).
Proof.
  induction items as [|item items IH]; [done|].
  rewrite filter_cons. simpl.
  change (list_omap I (level * string)%type (warn_of timeout) items)
    with (omap (warn_of timeout) items).
  pose proof (warning_of_dropped timeout item) as Hw.
  destruct (warn_of timeout item) as [entry|].
  - rewrite decide_True by (by apply Hw). simpl. by rewrite IH.
  - rewrite decide_False; [done|]. intros Hd. apply Hw in Hd. by destruct Hd.
Qed.

Lemma warnings_debug timeout (items : list I) :
  Forall (λ entry, entry.1 = DEBUG) (omap (warn_of timeout) items).
Proof.
  apply Forall_forall. intros entry Hin.
  apply list_elem_of_omap in Hin as (item & _ & Hw). unfold warning_of in Hw.
  destruct (task item timeout); by simplify_eq.
Qed.

Lemma pool_inv_init timeout iterable : inv timeout iterable (pool_init iterable).
Proof. exists []. simpl. by rewrite app_nil_r. Qed.

Lemma pool_inv_error timeout iterable st l1 item l2 e :
  pending st = l1 ++ item :: l2 → task item timeout = Failure e →
  inv timeout iterable st →
  inv timeout iterable (error_handler (take_out l1 l2 st) e).
Proof.
  intros Hpend Hcall (finished & Hperm & Hdone & Hret & Hlog & Hcount).
  exists (finished ++ [item]). simpl. rewrite Hpend in Hperm.
  rewrite !omap_app. simpl.
  unfold result_of at 2, warning_of at 2. rewrite Hcall. simpl.
  split_and!.
  - rewrite <- Hperm. solve_Permutation.
  - apply Forall_app. split; [done|]. constructor; [|done].
    unfold delivered. by rewrite Hcall.
  - by rewrite app_nil_r.
  - by rewrite Hlog.
  - rewrite length_app. simpl. lia.
Qed.

Lemma pool_inv_step num_parallel timeout iterable st st' :
  step num_parallel timeout st st' →
  inv timeout iterable st → inv timeout iterable st'.
Proof.
  intros Hstep Hinv.
  destruct Hstep as [st l1 item l2 r Hpend _ Hcall|st l1 item l2 e Hpend _ Hcall
                     |st l1 item l2 e Hpend Hfunc].
  - destruct Hinv as (finished & Hperm & Hdone & Hret & Hlog & Hcount).
    exists (finished ++ [item]). simpl. rewrite Hpend in Hperm.
    rewrite !omap_app. simpl.
    unfold result_of at 2, warning_of at 2. rewrite Hcall. simpl.
    split_and!.
    + rewrite <- Hperm. solve_Permutation.
    + apply Forall_app. split; [done|]. constructor; [|done].
      unfold delivered. by rewrite Hcall.
    + by rewrite Hret.
    + by rewrite app_nil_r.
    + rewrite length_app. simpl. lia.
  - by apply (pool_inv_error timeout iterable st l1 item l2 e).
  - apply (pool_inv_error timeout iterable st l1 item l2 e); [done| |done].
    by apply worker_unsent.
Qed.

Lemma pool_inv_rtc num_parallel timeout iterable st :
  rtc (step num_parallel timeout) (pool_init iterable) st → inv timeout iterable st.
Proof.
  intros Hrtc.
  eapply (rtc_ind_r (inv timeout iterable)); [apply pool_inv_init| |exact Hrtc].
  intros y z _ Hstep Hy. by eapply pool_inv_step.
Qed.

(** The in-order schedule is a run of the pool. *)
Lemma run_in_order_rtc num_parallel timeout st st' :
  0 < num_parallel →
  run_in_order func_name item_str func transport kwargs timeout st (pending st) = Some st' →
  rtc (step num_parallel timeout) st st' ∧ pending st' = [].
Proof.
  intros Hpos. remember (pending st) as items eqn:Hitems.
  revert st Hitems. induction items as [|item items IH]; intros st Hitems; simpl.
  - intros [= <-]. by split.
  - destruct (task item timeout) as [r|e| |] eqn:Hcall; [| |done|done]; intros Hrun.
    + destruct (IH (success_handler (take_out [] items st) r) eq_refl Hrun)
        as [Hrtc Hend]. split; [|done].
      eapply rtc_l; [|exact Hrtc].
      by apply (step_success _ _ _ _ _ _ _ st [] item items r).
    + destruct (IH (error_handler (take_out [] items st) e) eq_refl Hrun)
        as [Hrtc Hend]. split; [|done].
      eapply rtc_l; [|exact Hrtc].
      by apply (step_error _ _ _ _ _ _ _ st [] item items e).
Qed.

Lemma run_in_order_total timeout st (items : list I) :
  Forall (comes_back timeout) items →
  is_Some (run_in_order func_name item_str func transport kwargs timeout st items).
Proof.
  intros Hitems. revert st.
  induction Hitems as [|item items Hitem Hitems IH]; intros st; simpl; [done|].
  unfold delivered in Hitem. destruct (task item timeout); try done; apply IH.
Qed.

(** A call that hangs with no alarm armed keeps its worker for ever. *)
Lemma hanging_is_stuck item : func item = Hangs → task item 0 = Stuck.
Proof. intros Hfunc. unfold worker, _func_timeout. by rewrite Hfunc. Qed.

(** A is_clean task is is_dropped exactly when its operation raises or runs
    into the alarm, and its result is what the operation returned. *)
Lemma clean_dropped timeout item :
  is_clean timeout item →
  is_dropped timeout item = true ↔ raises func item ∨ times_out func timeout item.
Proof.
  intros [Hplain Harrives].
  unfold dropped, worker, raises, times_out, send.
  unfold _func_timeout in *.
  destruct Hplain as [Hfunc|(secs & out & Hfunc)]; rewrite Hfunc in *; simpl in *.
  - destruct (bool_decide (0 < timeout)) eqn:Hpos.
    + apply bool_decide_eq_true in Hpos. rewrite (Harrives _ eq_refl).
      split; [|done]. intros _. right. by split; [|left].
    + apply bool_decide_eq_false in Hpos. split; [done|].
      intros [(? & ? & ?)|[? _]]; done.
  - destruct (bool_decide (0 < timeout ≤ secs)) eqn:Halarm.
    + apply bool_decide_eq_true in Halarm. rewrite (Harrives _ eq_refl).
      split; [|done]. intros _. right. split; [lia|]. right. exists secs, out.
      split; [done|lia].
    + apply bool_decide_eq_false in Halarm. rewrite (Harrives _ eq_refl).
      destruct out as [r|e].
      * simpl. split; [done|].
        intros [(? & ? & [= _ ?])|[Hpos [?|(? & ? & [= <- <-] & Hle)]]]; try done. lia.
      * destruct (except_clause_Raise timeout item e) as [e' ->].
        split; [|done]. intros _. left. by exists secs, e.
Qed.

Lemma clean_result timeout item r :
  is_clean timeout item → res_of timeout item = Some r →
  ∃ secs, func item = Finishes secs (Ok r) ∧ ¬ (0 < timeout ≤ secs).
Proof.
  intros [Hplain Harrives].
  unfold result_of, worker, send. unfold _func_timeout in *.
  destruct Hplain as [Hfunc|(secs & out & Hfunc)]; rewrite Hfunc in *; simpl in *.
  - destruct (bool_decide (0 < timeout)); [|done].
    by rewrite (Harrives _ eq_refl).
  - destruct (bool_decide (0 < timeout ≤ secs)) eqn:Halarm.
    + by rewrite (Harrives _ eq_refl).
    + apply bool_decide_eq_false in Halarm. rewrite (Harrives _ eq_refl).
      destruct out as [r'|e].
      * simpl. intros [= ->]. by exists secs.
      * by destruct (except_clause_Raise timeout item e) as [e' ->].
Qed.

(** What a joined pool has done. *)
Lemma pool_joined num_parallel timeout iterable st :
  rtc (step num_parallel timeout) (pool_init iterable) st →
  pending st = [] →
  Forall (comes_back timeout) iterable
  ∧ returns st ≡ₚ omap (res_of timeout) iterable
  ∧ log st ≡ₚ omap (warn_of timeout) iterable
  ∧ completed st = length iterable.
Proof.
  intros Hrtc Hend.
  destruct (pool_inv_rtc _ _ _ _ Hrtc) as (finished & Hperm & Hdone & Hret & Hlog & Hcount).
  rewrite Hend in Hperm. simpl in Hperm.
  split_and!.
  - by rewrite <- Hperm.
  - by rewrite Hret, Hperm.
  - by rewrite Hlog, Hperm.
  - by rewrite Hcount, Hperm.
Qed.

End runner_properties.

(** Without a worker the pool is not built.  This is the default on a
    machine with fewer than four cores. *)
Lemma multiprocssing_run_no_worker {I R : Type}
    (func_name : string) (item_str : I → string) (func : I → behaviour R)
    (transport : result R → fate) (kwargs : list (string * string))
    (iterable : list I) (num_parallel : Z) (timeout : option nat)
    (outcome : result (list R)) (st : pool_state I R) :
  (num_parallel < 1)%Z →
  multiprocssing_run func_name item_str func transport kwargs iterable num_parallel timeout
    outcome st →
  outcome = Raise (ValueError "Number of processes must be at least 1")
  ∧ st = pool_init iterable.
Proof. intros Hbad Hrun. destruct Hrun; [done|lia]. Qed.

Lemma NUM_PARALLEL_below_four_cores (cpu_count : Z) :
  (1 ≤ cpu_count < 4)%Z → NUM_PARALLEL cpu_count = 0%Z.
Proof.
  intros Hc. unfold NUM_PARALLEL. rewrite Z.div_small by lia. done.
Qed.

(** A pool in which something comes back for every task has a run: the
    one in submission order. *)
Lemma in_order_run_exists {I R : Type}
    (func_name : string) (item_str : I → string) (func : I → behaviour R)
    (transport : result R → fate) (kwargs : list (string * string))
    (iterable : list I) (num_parallel : Z) (timeout : option nat) :
  (1 ≤ num_parallel)%Z →
  Forall (delivered func_name item_str func transport kwargs (default 0 timeout)) iterable →
  ∃ st, multiprocssing_run func_name item_str func transport kwargs iterable num_parallel
          timeout (Ok (returns st)) st.
Proof.
  intros Hn Hall.
  destruct (run_in_order_total func_name item_str func transport kwargs (default 0 timeout)
              (pool_init iterable) iterable Hall) as [st Hst].
  destruct (run_in_order_rtc func_name item_str func transport kwargs
              (Z.to_nat num_parallel) (default 0 timeout) (pool_init iterable) st)
    as [Hrtc Hend]; [lia|done|].
  exists st. by constructor.
Qed.



(** The count of the claim fails on a result that pickle refuses: of
    three items, none of which raises or times out, two results come
    back, in every run. *)
Lemma refused_result_is_dropped :
  let func (item : nat) : behaviour nat := Finishes 1 (Ok item) in
  let transport (out : result nat) : fate :=
    match out with
    | Ok 2 => Refused (OtherError "Error sending result: '2'. Reason: 'PicklingError()'")
    | _ => Arrives
    end in
  (∀ item, ¬ raises func item ∧ ¬ times_out func 0 item)
  ∧ (∃ outcome st,
       multiprocssing_run "dock" Str.of_nat func transport [] [1; 2; 3] 2 None outcome st)
  ∧ ∀ outcome st,
      multiprocssing_run "dock" Str.of_nat func transport [] [1; 2; 3] 2 None outcome st →
      ∃ returns, outcome = Ok returns ∧ returns ≡ₚ [1; 3] ∧ length returns ≠ (3 - 0).
Proof.
  intros func transport. split_and!.
  - intros item. split.
    + by intros (secs & e & ?).
    + intros [Hpos _]. lia.
  - destruct (in_order_run_exists "dock" Str.of_nat func transport [] [1; 2; 3] 2 None)
      as [st Hrun]; [done| |by eauto].
    apply (bool_decide_unpack _). by vm_compute.
  - intros outcome st Hrun. destruct Hrun as [Hbad|st Hok Hrtc Hend]; [done|].
    destruct (pool_joined _ _ _ _ _ _ _ _ _ Hrtc Hend) as (_ & Hret & _).
    exists (returns st). split; [done|]. split; [exact Hret|].
    apply Permutation_length in Hret. rewrite Hret. by vm_compute.
Qed.

(** * Further properties of the code *)

(** ** Loading a ledger *)

Section ledger_load.
Implicit Types (s line : string) (c : ascii) (w : world).

Lemma split_nonempty c s : Str.split c s ≠ [].
Proof.
  destruct s as [|c' s]; simpl; [done|].
  destruct (decide (c' = c)); [done|]. by destruct (Str.split c s).
Qed.

(** Joining what was split gives the string back. *)
Lemma join_split c s : Str.join (String c "") (Str.split c s) = s.
Proof.
  unfold Str.join. induction s as [|c' s IH]; [done|]. simpl.
  pose proof (split_nonempty c s) as Hs.
  destruct (Str.split c s) as [|w ws]; [done|].
  destruct (decide (c' = c)) as [->|Hne].
  - change (String c (String.concat (String c "") (w :: ws)) = String c s).
    by rewrite IH.
  - destruct ws as [|w' ws]; rewrite <- IH; reflexivity.
Qed.

Lemma unpack3_three (fields : list string) :
  length fields = 3 →
  ∃ t : triple, unpack3 fields = Ok t ∧ fields = [t.1.1; t.1.2; t.2].
Proof.
  destruct fields as [|a [|b [|c [|d fields]]]]; try done.
  intros _. by exists (a, b, c).
Qed.

Lemma unpack3_other (fields : list string) :
  length fields ≠ 3 → ∃ msg, unpack3 fields = Raise (ValueError msg).
Proof.
  destruct fields as [|a [|b [|c [|d fields]]]]; try done; intros _; by eexists.
Qed.

Lemma line_of_join (t : triple) :
  line_of t = Str.join (String Str.comma "") [t.1.1; t.1.2; t.2].
Proof. by destruct t as [[a b] c]. Qed.

Lemma parse_lines_ok (lines : list string) :
  Forall three_fields lines →
  ∃ ts, rmapM unpack3 (map (Str.split Str.comma) lines) = Ok ts ∧ map line_of ts = lines.
Proof.
  induction 1 as [|line lines Hline Hlines (ts & Hts & Hmap)]; [by exists []|].
  destruct (unpack3_three _ Hline) as (t & Ht & Hfields).
  exists (t :: ts). simpl. rewrite Ht. unfold mbind, result_bind. rewrite Hts.
  split; [done|]. rewrite Hmap. f_equal.
  by rewrite line_of_join, <- Hfields, join_split.
Qed.

Lemma parse_lines_bad (lines : list string) :
  ¬ Forall three_fields lines →
  ∃ msg, rmapM unpack3 (map (Str.split Str.comma) lines) = Raise (ValueError msg).
Proof.
  induction lines as [|line lines IH]; [by intros []|].
  intros Hbad. simpl. destruct (decide (three_fields line)) as [Hline|Hline].
  - destruct (unpack3_three _ Hline) as (t & -> & _). unfold mbind, result_bind.
    destruct IH as [msg ->]; [|by eexists].
    intros Hlines. apply Hbad. by constructor.
  - destruct (unpack3_other _ Hline) as [msg ->]. by eexists.
Qed.

End ledger_load.

(** X1.  When the ledger file of the precision exists, the load
    succeeds exactly when every line of the file has three
    comma-separated fields.  It then returns one record per line, in
    file order, and rendering the records gives the lines back; an empty
    file loads as the empty list.  Otherwise it raises [ValueError].
    Either way the console and the files are left as they were. *)
Theorem get_failed_list_lines (precision : string) (w : world) (text : string) :
  files w !! failed_list_file_path (Console.result_save_dir (self w)) precision = Some text →
  (Forall three_fields (Str.splitlines text) →
     ∃ ts, _get_failed_list precision w = (Ok (Some ts), w)
           ∧ map line_of ts = Str.splitlines text)
  ∧ (¬ Forall three_fields (Str.splitlines text) →
     ∃ msg, _get_failed_list precision w = (Raise (ValueError msg), w))
  ∧ (text = "" → _get_failed_list precision w = (Ok (Some []), w)).
Proof.
  intros Hfile. rewrite get_failed_list_eval. unfold load_ledger. rewrite Hfile.
  unfold parse_failed_list. rewrite splitlines_universal_newlines.
  split_and!.
  - intros Hlines. destruct (parse_lines_ok _ Hlines) as (ts & -> & Hmap).
    by exists ts.
  - intros Hlines. destruct (parse_lines_bad _ Hlines) as (msg & ->). by exists msg.
  - by intros ->.
Qed.

Lemma get_failed_list_lines_witness :
  let text := "R1,L1,A" +:+ String Str.LF "R2,L2,C" in
  let w := World Run.split_console {[ "/work/result/docking_failed_SP.csv" := text ]} in
  ∃ ts, _get_failed_list "SP" w = (Ok (Some ts), w)
        ∧ map line_of ts = ["R1,L1,A"; "R2,L2,C"].
Proof.
  intros text w.
  destruct (get_failed_list_lines "SP" w text eq_refl) as (Hok & _ & _).
  apply Hok. apply (bool_decide_unpack _). by vm_compute.
Defined.

(** A blank line is a line with one field. *)
Example blank_line_in_ledger :
  parse_failed_list ("R1,L1,A" +:+ String Str.LF (String Str.LF "R2,L2,C"))
  = Raise (ValueError "not enough values to unpack (expected 3, got 1)").
Proof. reflexivity. Qed.

(** ** Ledger files touched by hand *)

Section ledger_newlines.
Implicit Types (s t eol : string) (lines : list string) (ks : list triple).

Lemma splitlines_app_eol s eol t :
  is_eol eol → Str.has_linebreak s = false →
  Str.splitlines (s +:+ eol +:+ t) = s :: Str.splitlines t.
Proof.
  intros [-> | ->] Hs.
  - by apply splitlines_app_LF.
  - induction s as [|c s IH]; simpl in *; [done|].
    apply orb_false_elim in Hs as [Hc Hs]. rewrite Hc. by rewrite IH.
Qed.

Lemma append_assoc s t u : (s +:+ t) +:+ u = s +:+ t +:+ u.
Proof.
  induction s as [|c s IH]; [done|].
  change (String c ((s +:+ t) +:+ u) = String c (s +:+ t +:+ u)). by rewrite IH.
Qed.

Lemma append_nil_r s : s +:+ "" = s.
Proof.
  induction s as [|c s IH]; [done|].
  change (String c (s +:+ "") = String c s). by rewrite IH.
Qed.

(** Lines joined by either line end, with or without a line end after
    the last one, split into the same lines. *)
Lemma splitlines_join_eol eol final lines :
  is_eol eol → final = "" ∨ is_eol final → lines ≠ [] →
  Forall (λ s, Str.has_linebreak s = false ∧ s ≠ "") lines →
  Str.splitlines (Str.join eol lines +:+ final) = lines.
Proof.
  intros Heol Hfinal Hne Hlines.
  induction Hlines as [|s lines [Hs Hnes] Hlines IH]; [done|].
  destruct lines as [|s' lines].
  - unfold Str.join. simpl String.concat. destruct Hfinal as [-> | Hfinal].
    + rewrite append_nil_r. by apply splitlines_one.
    + rewrite <- (append_nil_r final). by rewrite splitlines_app_eol.
  - change (Str.join eol (s :: s' :: lines))
      with (s +:+ eol +:+ Str.join eol (s' :: lines)).
    rewrite !append_assoc, splitlines_app_eol by done.
    by rewrite IH.
Qed.

Lemma unpack_rendered ks :
  Forall comma_free ks →
  rmapM unpack3 (map (Str.split Str.comma) (map line_of ks)) = Ok ks.
Proof.
  induction 1 as [|k ks Hk Hks IH]; [done|]. simpl.
  rewrite split_line_of by done. destruct k as [[??]?]. simpl.
  unfold mbind, result_bind. by rewrite IH.
Qed.

End ledger_newlines.

(** X2.  A ledger whose lines end in CR LF instead of LF, or that has a
    line end after its last record, loads as the same records: for
    records whose fields hold no comma and no line boundary, every such
    layout of their lines parses back to exactly these records. *)
Theorem parse_failed_list_line_ends (ks : list triple) (eol final : string) :
  ks ≠ [] → Forall comma_free ks → Forall one_line ks →
  is_eol eol → final = "" ∨ is_eol final →
  parse_failed_list (Str.join eol (map line_of ks) +:+ final) = Ok ks.
Proof.
  intros Hne Hc Hl Heol Hfinal. unfold parse_failed_list.
  rewrite splitlines_universal_newlines, splitlines_join_eol; try done.
  - by apply unpack_rendered.
  - by destruct ks.
  - clear Hc Hne. induction Hl as [|k ks Hk Hks IH]; constructor; [|done].
    by apply line_of_one_line.
Qed.

Lemma parse_failed_list_line_ends_witness :
  parse_failed_list
    ("R1,L1,A" +:+ String Str.CR (String Str.LF "R2,L2,C") +:+ String Str.LF "")
  = Ok [("R1", "L1", "A"); ("R2", "L2", "C")].
Proof.
  apply (parse_failed_list_line_ends [("R1", "L1", "A"); ("R2", "L2", "C")]
           (String Str.CR (String Str.LF "")) (String Str.LF "")).
  - done.
  - repeat constructor.
  - repeat constructor.
  - by right.
  - right. by left.
Defined.

(** ** [creat_mapping]: guards and a ledger that does not parse *)

(** X3.  [creat_mapping] called while ligand splitting or grid
    generation has not run raises [RuntimeError] and changes neither the
    console nor the files, and it does not look at the ledger.  The
    message names [ligand_split] whenever the ligand paths are missing,
    also when the grids are missing too, and [grid_generate]
    otherwise. *)
Theorem creat_mapping_guards `{Common} (precision : string) (w : world) :
  Console.ligand_path_list (self w) = None ∨ Console.grid_file_list (self w) = None →
  creat_mapping precision w
  = (Raise (RuntimeError
              match Console.ligand_path_list (self w) with
              | None => "Please run ligand_split first."
              | Some _ => "Please run grid_generate first."
              end), w).
Proof.
  intros Hmissing.
  destruct (Console.ligand_path_list (self w)) as [paths|] eqn:Hl.
  - destruct Hmissing as [?|Hg]; [done|].
    by apply (creat_mapping_needs_grid_generate precision w paths).
  - by apply creat_mapping_needs_ligand_split.
Qed.

Lemma creat_mapping_guards_witness :
  let fresh := World (Console.__init__ [("R1", "L1")] "/work")
                 {[ "/work/result/docking_failed_SP.csv" := "not a record" ]} in
  let split := World (Console.set_ligand_path_list ["/work/ligands/A.mae"] (self fresh)) ∅ in
  @creat_mapping Run.common "SP" fresh
  = (Raise (RuntimeError "Please run ligand_split first."), fresh)
  ∧ @creat_mapping Run.common "SP" split
    = (Raise (RuntimeError "Please run grid_generate first."), split).
Proof.
  intros fresh split. split.
  - apply (@creat_mapping_guards Run.common "SP" fresh). by left.
  - apply (@creat_mapping_guards Run.common "SP" split). by right.
Defined.



Example creat_mapping_malformed_ledger_fresh :
  let w := World Run.split_console
             {[ "/work/result/docking_failed_SP.csv" := "R2,L2" ]} in
  ∃ msg w1,
    @creat_mapping Run.common "SP" w = (Raise (ValueError msg), w1)
    ∧ Console.mapping (self w1) = None
    ∧ @multi_dock elements_iteration (Run.dock []) "SP" 3 w1
      = (Raise (RuntimeError "Please run creat_mapping first."), w1).
Proof. eexists _, _. by vm_compute. Qed.

(** ** The ledger across runs *)

Section ledger_runs.
Context `{SetIteration}.
Implicit Types (w : world) (dock : pool_run mapping_item DockResultFile.t).
Implicit Types (mapping : list mapping_item) (results : list DockResultFile.t).

(** The lines [multi_dock] writes load as key triples of submitted
    entries that have no dock result. *)
Lemma written_ledger_loads mapping results :
  Forall (λ m, comma_free (dock_key m) ∧ one_line (dock_key m)) mapping →
  ∃ ts, parse_failed_list (Str.join (String Str.LF "") (failed_lines mapping results)) = Ok ts
        ∧ ∀ t, t ∈ ts →
            ∃ m, m ∈ mapping ∧ t = dock_key m
                 ∧ total_line m ∉ map success_line results.
Proof.
  intros Hclean. rewrite Forall_forall in Hclean.
  assert (Forall (λ x, x ∈ map total_line mapping) (failed_lines mapping results)) as Hsub.
  { apply Forall_forall. intros x Hx. by apply elem_of_failed_lines in Hx as [? _]. }
  apply preimage_list in Hsub as (ks & Hks & Hsub).
  rewrite Forall_forall in Hsub.
  exists (map dock_key ks). split.
  - rewrite Hks.
    replace (map total_line ks) with (map line_of (map dock_key ks))
      by (by rewrite map_map).
    apply parse_failed_list_join; apply Forall_forall; intros t Ht;
      apply list_elem_of_fmap in Ht as (m & -> & Hm); by apply Hclean, Hsub.
  - intros t Ht. apply list_elem_of_fmap in Ht as (m & -> & Hm).
    exists m. split_and!; [by apply Hsub|done|].
    assert (total_line m ∈ failed_lines mapping results) as Hin.
    { rewrite Hks. apply list_elem_of_fmap. eauto. }
    by apply elem_of_failed_lines in Hin as [_ ?].
Qed.

Lemma failed_lines_nil mapping results :
  (∀ m, m ∈ mapping → total_line m ∈ map success_line results) →
  failed_lines mapping results = [].
Proof.
  intros Hall. destruct (failed_lines mapping results) as [|x l] eqn:Heq; [done|].
  assert (x ∈ failed_lines mapping results) as Hx by (rewrite Heq; left).
  apply elem_of_failed_lines in Hx as [Hin Hout].
  apply list_elem_of_fmap in Hin as (m & -> & Hm). destruct Hout. by apply Hall.
Qed.

End ledger_runs.


(** X5.  The ledger is rewritten, not extended.  Take a mapping built
    with the records [ts] loaded, and a [multi_dock] on it that loses
    at least one task.  The ledger it leaves then loads as records none
    of which is in [ts], and a mapping built from that ledger contains
    again every pair that [ts] had excluded.  (Fields without comma or
    line boundary; grids whose [ligand] and [internal_ligand] agree.) *)
Theorem ledger_forgets_earlier_failures `{SetIteration}
    (dock : pool_run mapping_item DockResultFile.t)
    (precision : string) (num_parallel : Z) (w1 w2 : world)
    (grids : list GridFile.t) (ligands : list LigandFile.t)
    (ts : list triple) (failed : list string) :
  Console.mapping (self w1) = Some (_creat_mapping grids ligands (Some ts)) →
  multi_dock dock precision num_parallel w1 = (Ok tt, w2) →
  Console.docking_failed_list (self w2) = Some failed →
  failed ≠ [] →
  Forall (λ g, GridFile.ligand g = GridFile.internal_ligand g) grids →
  Forall (λ m, comma_free (dock_key m) ∧ one_line (dock_key m)) (cross grids ligands) →
  ∃ ts',
    _get_failed_list precision w2 = (Ok (Some ts'), w2)
    ∧ (∀ t, t ∈ ts → t ∉ ts')
    ∧ ∀ g l, g ∈ grids → l ∈ ligands → mapping_key g l ∈ ts →
        (g, l) ∈ _creat_mapping grids ligands (Some ts').
Proof.
  intros Hmap Hrun Hfailed Hne Hlig Hclean.
  destruct (multi_dock_inv _ _ _ _ _ Hrun)
    as (grids' & ligands' & mapping & results & fs1 & Hg & Hl & Hm & Hdock).
  rewrite Hmap in Hm. injection Hm as <-.
  rewrite (multi_dock_run _ _ _ _ _ _ _ _ _ Hg Hl Hmap Hdock) in Hrun.
  injection Hrun as <-. simpl in Hfailed. injection Hfailed as <-.
  rewrite Forall_forall in Hlig. rewrite Forall_forall in Hclean.
  assert (∀ m, m ∈ _creat_mapping grids ligands (Some ts) →
               m ∈ cross grids ligands ∧ item_key m ∉ ts) as Hin.
  { intros m Hm. rewrite creat_mapping_filter in Hm.
    apply list_elem_of_filter in Hm as [Hk Hm]. by split. }
  destruct (written_ledger_loads (_creat_mapping grids ligands (Some ts)) results)
    as (ts' & Hparse & Hts').
  { apply Forall_forall. intros m Hm. by apply Hclean, Hin. }
  assert (∀ t, t ∈ ts → t ∉ ts') as Hdisjoint.
  { intros t Ht Ht'. destruct (Hts' t Ht') as (m & Hm & -> & _).
    destruct (Hin m Hm) as [Hcross Hkey]. apply Hkey.
    destruct m as [g l]. apply elem_of_cross in Hcross as [Hgin _].
    unfold item_key, mapping_key. simpl. rewrite (Hlig g Hgin). exact Ht. }
  exists ts'. split_and!; [|done|].
  - rewrite get_failed_list_eval. unfold load_ledger. simpl.
    rewrite bool_decide_true
      by (by destruct (failed_lines (_creat_mapping grids ligands (Some ts)) results)).
    by rewrite lookup_insert_eq, Hparse.
  - intros g l Hgin Hlin Hkey. rewrite creat_mapping_filter, list_elem_of_filter.
    split; [|by apply elem_of_cross]. by apply Hdisjoint.
Qed.

Lemma ledger_forgets_earlier_failures_witness :
  let ts := [("R2", "L2", "C")] in
  let grids := [Run.R1; Run.R2] in
  let ligands := [Run.A; Run.B; Run.C] in
  let w1 := World (Console.set_mapping (_creat_mapping grids ligands (Some ts))
                     Run.mapped_console)
              {[ "/work/result/docking_failed_SP.csv" := "R2,L2,C" ]} in
  let w2 := (@multi_dock elements_iteration (Run.dock [("R1", "L1", "A")]) "SP" 3 w1).2 in
  files w2 !! "/work/result/docking_failed_SP.csv" = Some "R1,L1,A"
  ∧ ∃ ts',
      _get_failed_list "SP" w2 = (Ok (Some ts'), w2)
      ∧ (∀ t, t ∈ ts → t ∉ ts')
      ∧ ∀ g l, g ∈ grids → l ∈ ligands → mapping_key g l ∈ ts →
          (g, l) ∈ _creat_mapping grids ligands (Some ts').
Proof.
  intros ts grids ligands w1 w2. split; [by vm_compute|].
  apply (@ledger_forgets_earlier_failures elements_iteration
           (Run.dock [("R1", "L1", "A")]) "SP" 3 w1 w2 grids ligands ts ["R1,L1,A"]).
  - reflexivity.
  - by vm_compute.
  - by vm_compute.
  - discriminate.
  - repeat constructor.
  - repeat constructor.
Defined.

(** X6.  A [multi_dock] in which every submitted entry has a dock
    result records an empty failure list and writes no file; when the
    docking tasks themselves leave the ledger file alone, a later load
    answers what it answered before the run, so records of earlier runs
    stay in force. *)
Theorem multi_dock_all_succeed_keeps_ledger `{SetIteration}
    (dock : pool_run mapping_item DockResultFile.t)
    (precision : string) (num_parallel : Z) (w w' : world)
    (mapping : list mapping_item) (results : list DockResultFile.t) (fs1 : FS) :
  multi_dock dock precision num_parallel w = (Ok tt, w') →
  Console.mapping (self w) = Some mapping →
  dock mapping num_parallel (files w) = (Ok results, fs1) →
  (∀ m, m ∈ mapping → total_line m ∈ map success_line results) →
  Console.docking_failed_list (self w') = Some []
  ∧ files w' = fs1
  ∧ (fs1 !! failed_list_file_path (Console.result_save_dir (self w)) precision
     = files w !! failed_list_file_path (Console.result_save_dir (self w)) precision →
     (_get_failed_list precision w').1 = (_get_failed_list precision w).1).
Proof.
  intros Hrun Hmap Hdock Hall.
  destruct (multi_dock_inv _ _ _ _ _ Hrun)
    as (grids & ligands & mapping' & results' & fs1' & Hg & Hl & Hm & Hdock').
  rewrite Hmap in Hm. injection Hm as <-.
  rewrite Hdock in Hdock'. injection Hdock' as <- <-.
  rewrite (multi_dock_run _ _ _ _ _ _ _ _ _ Hg Hl Hmap Hdock) in Hrun.
  injection Hrun as <-. simpl.
  rewrite (failed_lines_nil mapping results Hall). simpl.
  split_and!; [done..|].
  intros Hsame. rewrite !get_failed_list_eval. simpl.
  unfold load_ledger. by rewrite Hsame.
Qed.

Lemma multi_dock_all_succeed_keeps_ledger_witness :
  let w := World Run.mapped_console
             {[ "/work/result/docking_failed_SP.csv" := "R9,L9,Z" ]} in
  let w' := (@multi_dock elements_iteration (Run.dock []) "SP" 3 w).2 in
  Console.docking_failed_list (self w') = Some []
  ∧ files w' = files w
  ∧ (files w !! failed_list_file_path (Console.result_save_dir (self w)) "SP"
     = files w !! failed_list_file_path (Console.result_save_dir (self w)) "SP" →
     (_get_failed_list "SP" w').1 = (_get_failed_list "SP" w).1).
Proof.
  intros w w'.
  eapply (@multi_dock_all_succeed_keeps_ledger elements_iteration (Run.dock []) "SP" 3 w w'
            (cross [Run.R1; Run.R2] [Run.A; Run.B; Run.C])).
  - by vm_compute.
  - reflexivity.
  - reflexivity.
  - apply Forall_forall. apply (bool_decide_unpack _). by vm_compute.
Defined.

(** X7.  Ledgers are kept apart by precision: a [multi_dock] at one
    precision leaves the ledger file of every other precision as the
    docking tasks left it, whether or not it writes its own. *)
Theorem multi_dock_other_precision `{SetIteration}
    (dock : pool_run mapping_item DockResultFile.t)
    (precision other : string) (num_parallel : Z) (w w' : world)
    (mapping : list mapping_item) (results : list DockResultFile.t) (fs1 : FS) :
  multi_dock dock precision num_parallel w = (Ok tt, w') →
  Console.mapping (self w) = Some mapping →
  dock mapping num_parallel (files w) = (Ok results, fs1) →
  precision ≠ other →
  files w' !! failed_list_file_path (Console.result_save_dir (self w')) other
  = fs1 !! failed_list_file_path (Console.result_save_dir (self w)) other.
Proof.
  intros Hrun Hmap Hdock Hne.
  destruct (multi_dock_inv _ _ _ _ _ Hrun)
    as (grids & ligands & mapping' & results' & fs1' & Hg & Hl & Hm & Hdock').
  rewrite Hmap in Hm. injection Hm as <-.
  rewrite Hdock in Hdock'. injection Hdock' as <- <-.
  rewrite (multi_dock_run _ _ _ _ _ _ _ _ _ Hg Hl Hmap Hdock) in Hrun.
  injection Hrun as <-. simpl.
  destruct (bool_decide (length (failed_lines mapping results) ≠ 0)); [|done].
  apply lookup_insert_ne. intros Heq. by apply failed_list_file_path_inj in Heq.
Qed.

Lemma multi_dock_other_precision_witness :
  let w := World Run.mapped_console
             {[ "/work/result/docking_failed_XP.csv" := "R1,L1,B" ]} in
  let w' := (@multi_dock elements_iteration (Run.dock [("R2", "L2", "C")]) "SP" 3 w).2 in
  files w' !! "/work/result/docking_failed_SP.csv" = Some "R2,L2,C"
  ∧ files w' !! failed_list_file_path (Console.result_save_dir (self w')) "XP"
    = files w !! failed_list_file_path (Console.result_save_dir (self w)) "XP".
Proof.
  intros w w'. split; [by vm_compute|].
  eapply (@multi_dock_other_precision elements_iteration
            (Run.dock [("R2", "L2", "C")]) "SP" "XP" 3 w w'
            (cross [Run.R1; Run.R2] [Run.A; Run.B; Run.C])).
  - by vm_compute.
  - reflexivity.
  - reflexivity.
  - discriminate.
Defined.

(** ** The pool: order, progress, and calls that never return *)

Lemma omap_filter_None {A B : Type} (f : A → option B) (P : A → Prop)
    `{∀ x, Decision (P x)} (l : list A) :
  (∀ x, x ∈ l → ¬ P x → f x = None) → omap f (filter P l) = omap f l.
Proof.
  induction l as [|x l IH]; intros Hnone; [done|].
  assert (omap f (filter P l) = omap f l) as Htail.
  { apply IH. intros y Hy. apply Hnone. by right. }
  rewrite filter_cons. destruct (decide (P x)) as [Hx|Hx]; simpl.
  - destruct (f x); [f_equal|]; exact Htail.
  - rewrite (Hnone x); [exact Htail|by left|done].
Qed.

Section runner_more.
Context {I R : Type}.
Variable func_name : string.
Variable item_str : I → string.
Variable func : I → behaviour R.
Variable transport : result R → fate.
Variable kwargs : list (string * string).
Implicit Types (st : pool_state I R) (item : I) (timeout : nat).

Local Abbreviation task := (worker func_name item_str func transport kwargs).
Local Abbreviation holds := (holds_worker func_name item_str func transport kwargs).
Local Abbreviation step := (pool_step func_name item_str func transport kwargs).
Local Abbreviation res_of := (result_of func_name item_str func transport kwargs).
Local Abbreviation warn_of := (warning_of func_name item_str func transport kwargs).
Local Abbreviation one_by_one :=
  (single_worker_inv func_name item_str func transport kwargs).

Lemma holds_of_result timeout item r :
  task item timeout = Result r → holds timeout item = true.
Proof.
  intros Hw. unfold holds_worker. rewrite Hw.
  destruct (func item) as [| | | |reported] eqn:Hfunc; try done.
  unfold worker in Hw. rewrite Hfunc in Hw. by destruct reported.
Qed.

Lemma failure_without_worker timeout item e :
  holds timeout item = false → task item timeout = Failure e →
  func item = Unsent (Some e).
Proof.
  intros Hh Hw. unfold holds_worker in Hh. rewrite Hw in Hh.
  destruct (func item) as [| | | |reported] eqn:Hfunc; try done.
  unfold worker in Hw. rewrite Hfunc in Hw. destruct reported; by simplify_eq.
Qed.

Lemma no_worker_no_result timeout item :
  holds timeout item ≠ true → res_of timeout item = None.
Proof.
  intros Hh. unfold result_of.
  destruct (task item timeout) as [r| | |] eqn:Hw; try done.
  by apply holds_of_result in Hw.
Qed.

Lemma no_worker_no_warning timeout item :
  (∀ e, func item ≠ Unsent (Some e)) →
  holds timeout item ≠ true → warn_of timeout item = None.
Proof.
  intros Hsent Hh. unfold warning_of.
  destruct (task item timeout) as [|e| |] eqn:Hw; try done.
  destruct (holds timeout item) eqn:Hheld; [done|].
  by destruct (Hsent e), (failure_without_worker timeout item e).
Qed.

(** With one worker nothing before the task that completes holds a
    worker. *)
Lemma nobody_before timeout (l1 : list I) :
  length (filter (λ before, holds timeout before = true) l1) < 1 →
  filter (λ before, holds timeout before = true) l1 = [].
Proof. intros Hlen. apply nil_length_inv. lia. Qed.

Lemma single_worker_held timeout iterable st l1 item l2 (returns' : list R)
    (log' : list (level * string)) (completed' : nat) :
  pending st = l1 ++ item :: l2 →
  filter (λ before, holds timeout before = true) l1 = [] →
  holds timeout item = true →
  returns' = returns st ++ option_list (res_of timeout item) →
  log' = log st ++ option_list (warn_of timeout item) →
  one_by_one timeout iterable st →
  one_by_one timeout iterable (PoolState (l1 ++ l2) returns' log' completed').
Proof.
  intros Hpend Hfree Hheld -> -> (finished & Hsplit & Hsub & Hret & Hlog).
  exists (finished ++ [item]). cbn [pending returns log].
  rewrite Hpend, filter_app, Hfree, filter_cons_True in Hsplit by done.
  split_and!.
  - rewrite filter_app, Hfree. by rewrite <- app_assoc.
  - intros x Hx. apply Hsub. rewrite Hpend.
    apply elem_of_app in Hx as [Hx|Hx]; set_solver.
  - rewrite omap_app, Hret. simpl. by destruct (res_of timeout item).
  - intros Hsent. rewrite omap_app, Hlog by done. simpl.
    by destruct (warn_of timeout item).
Qed.

Lemma single_worker_unheld timeout iterable st l1 item l2 e (completed' : nat) :
  pending st = l1 ++ item :: l2 →
  func item = Unsent (Some e) →
  one_by_one timeout iterable st →
  one_by_one timeout iterable
    (PoolState (l1 ++ l2) (returns st)
       (log st ++ [(DEBUG, "Multiprocessing Run Warnning: " +:+ exn_str e)]) completed').
Proof.
  intros Hpend Hfunc (finished & Hsplit & Hsub & Hret & Hlog).
  assert (holds timeout item ≠ true) as Hfree.
  { unfold holds_worker. by rewrite Hfunc. }
  exists finished. cbn [pending returns log].
  rewrite Hpend, filter_app, filter_cons_False in Hsplit by done.
  split_and!.
  - by rewrite filter_app.
  - intros x Hx. apply Hsub. rewrite Hpend.
    apply elem_of_app in Hx as [Hx|Hx]; set_solver.
  - done.
  - intros Hsent. rewrite Forall_forall in Hsent.
    destruct (Hsent item) with e; [|done]. apply Hsub. rewrite Hpend. set_solver.
Qed.

Lemma single_worker_step timeout iterable st st' :
  step 1 timeout st st' →
  one_by_one timeout iterable st → one_by_one timeout iterable st'.
Proof.
  intros Hstep Hinv.
  destruct Hstep as [st l1 item l2 r Hpend Hfirst Hcall|st l1 item l2 e Hpend Hfirst Hcall
                     |st l1 item l2 e Hpend Hfunc].
  - apply (single_worker_held timeout iterable st l1 item l2); try done.
    + by apply nobody_before.
    + by eapply holds_of_result.
    + cbn [returns take_out]. unfold result_of. by rewrite Hcall.
    + cbn [log take_out]. unfold warning_of. rewrite Hcall. simpl. by rewrite app_nil_r.
  - destruct (holds timeout item) eqn:Hheld.
    + apply (single_worker_held timeout iterable st l1 item l2); try done.
      * by apply nobody_before.
      * cbn [returns take_out]. unfold result_of. rewrite Hcall. simpl.
        by rewrite app_nil_r.
      * cbn [log take_out]. unfold warning_of. by rewrite Hcall.
    + apply (single_worker_unheld timeout iterable st l1 item l2 e); [done| |done].
      by apply (failure_without_worker timeout).
  - by apply (single_worker_unheld timeout iterable st l1 item l2 e).
Qed.

Lemma single_worker_rtc timeout iterable st :
  rtc (step 1 timeout) (pool_init iterable) st → one_by_one timeout iterable st.
Proof.
  intros Hrtc.
  eapply (rtc_ind_r (one_by_one timeout iterable)); [| |exact Hrtc].
  - exists []. by split_and!.
  - intros y z _ Hstep Hy. by eapply single_worker_step.
Qed.

Lemma pool_counts num_parallel timeout iterable st :
  rtc (step num_parallel timeout) (pool_init iterable) st →
  completed st + length (pending st) = length iterable
  ∧ length (returns st) + length (log st) = completed st
  ∧ Forall (λ entry, entry.1 = DEBUG) (log st).
Proof.
  intros Hrtc.
  destruct (pool_inv_rtc _ _ _ _ _ _ _ _ _ Hrtc)
    as (finished & Hperm & Hdone & Hret & Hlog & Hcount).
  split_and!.
  - rewrite <- Hperm, length_app. lia.
  - rewrite Hret, Hlog, Hcount, warnings_count.
    by apply kept_plus_dropped.
  - rewrite Hlog. apply warnings_debug.
Qed.

End runner_more.



(** X9.  At every moment of a run the progress count plus the number of
    tasks still pending is the number of items submitted, and the count
    is the number of results collected plus the number of log records,
    all of them at debug level: each task is counted once, as a result
    or as a logged failure. *)
Theorem pool_progress {I R : Type}
    (func_name : string) (item_str : I → string) (func : I → behaviour R)
    (transport : result R → fate) (kwargs : list (string * string))
    (num_parallel timeout : nat) (iterable : list I) (st : pool_state I R) :
  rtc (pool_step func_name item_str func transport kwargs num_parallel timeout)
    (pool_init iterable) st →
  completed st + length (pending st) = length iterable
  ∧ length (returns st) + length (log st) = completed st
  ∧ Forall (λ entry, entry.1 = DEBUG) (log st).
Proof. apply pool_counts. Qed.

Lemma pool_progress_witness :
  let func (item : nat) : behaviour nat :=
    match item with
    | 2 => Finishes 1 (Raise (OtherError "boom"))
    | n => Finishes 1 (Ok n)
    end in
  let transport (out : result nat) : fate := Arrives in
  let st := PoolState [1; 4] [3] [(DEBUG, "Multiprocessing Run Warnning: boom")] 2 in
  completed st + length (pending st) = 4
  ∧ length (returns st) + length (log st) = completed st
  ∧ Forall (λ entry, entry.1 = DEBUG) (log st).
Proof.
  intros func transport st.
  apply (pool_progress "dock" Str.of_nat func transport [] 3 0 [1; 2; 3; 4] st).
  eapply rtc_l.
  { apply (step_success "dock" Str.of_nat func transport [] 3 0
             (pool_init [1; 2; 3; 4]) [1; 2] 3 [4] 3);
      [reflexivity|vm_compute; lia|reflexivity]. }
  eapply rtc_l; [|apply rtc_refl].
  apply (step_error "dock" Str.of_nat func transport [] 3 0
           (PoolState [1; 2; 4] [3] [] 1) [1] 2 [4] (OtherError "boom"));
    [reflexivity|vm_compute; lia|reflexivity].
Defined.

(** X10.  Without a timeout ([None], or [0]) a single call that never
    returns keeps the pool from ever joining: no run of
    [multiprocssing_run] has an outcome, whatever the other items do
    and however many workers there are. *)
Theorem hanging_task_blocks_pool {I R : Type}
    (func_name : string) (item_str : I → string) (func : I → behaviour R)
    (transport : result R → fate) (kwargs : list (string * string))
    (iterable : list I) (num_parallel : Z) (timeout : option nat) (item : I) :
  (1 ≤ num_parallel)%Z → default 0 timeout = 0 →
  item ∈ iterable → func item = Hangs →
  ¬ ∃ outcome st,
      multiprocssing_run func_name item_str func transport kwargs iterable num_parallel
        timeout outcome st.
Proof.
  intros Hn Ht Hin Hhang (outcome & st & Hrun).
  destruct Hrun as [Hbad|st _ Hrtc Hend]; [lia|].
  destruct (pool_joined _ _ _ _ _ _ _ _ _ Hrtc Hend) as (Hall & _).
  rewrite Forall_forall in Hall. specialize (Hall item Hin).
  unfold delivered in Hall. rewrite Ht in Hall.
  by rewrite (hanging_is_stuck func_name item_str func transport kwargs item Hhang) in Hall.
Qed.

Lemma hanging_task_blocks_pool_witness :
  let func (item : nat) : behaviour nat :=
    match item with 3 => Hangs | n => Finishes 1 (Ok n) end in
  let transport (out : result nat) : fate := Arrives in
  ¬ ∃ outcome st,
      multiprocssing_run "dock" Str.of_nat func transport [] [1; 2; 3; 4] 4 None outcome st.
Proof.
  intros func transport.
  apply (hanging_task_blocks_pool "dock" Str.of_nat func transport [] [1; 2; 3; 4] 4 None 3);
    [done|done| |done].
  apply (bool_decide_unpack _). by vm_compute.
Defined.

(** X11.  On a machine with at least one core the default worker count
    is a multiple of three between zero and the core count, and it is
    at least one exactly from four cores on.  Below four cores it is
    zero, and a pool asked for that many workers raises [ValueError]
    before any item is run. *)
Theorem default_worker_count (cpu_count : Z) :
  (1 ≤ cpu_count)%Z →
  (0 ≤ NUM_PARALLEL cpu_count ≤ cpu_count)%Z
  ∧ (NUM_PARALLEL cpu_count `mod` 3 = 0)%Z
  ∧ ((1 ≤ NUM_PARALLEL cpu_count)%Z ↔ (4 ≤ cpu_count)%Z)
  ∧ ((cpu_count < 4)%Z →
     ∀ (I R : Type) func_name item_str (func : I → behaviour R) transport kwargs iterable
       timeout outcome st,
       multiprocssing_run func_name item_str func transport kwargs iterable
         (NUM_PARALLEL cpu_count) timeout outcome st →
       outcome = Raise (ValueError "Number of processes must be at least 1")
       ∧ returns st = [] ∧ completed st = 0).
Proof.
  intros Hc. unfold NUM_PARALLEL.
  pose proof (Z.div_mod cpu_count 4 ltac:(done)) as Hdm.
  pose proof (Z.mod_pos_bound cpu_count 4 ltac:(done)) as Hmod.
  assert (0 ≤ cpu_count `div` 4)%Z as Hq by (apply Z.div_pos; lia).
  split_and!.
  - lia.
  - lia.
  - by apply Z.mod_mul.
  - split; intros ?; [|].
    + destruct (decide (cpu_count `div` 4 = 0)%Z); lia.
    + assert (1 ≤ cpu_count `div` 4)%Z; [|lia].
      apply Z.div_le_lower_bound; lia.
  - intros Hsmall I R func_name item_str func transport kwargs iterable timeout outcome st
      Hrun.
    rewrite Z.div_small in Hrun by lia.
    apply multiprocssing_run_no_worker in Hrun; [|lia].
    by destruct Hrun as [-> ->].
Qed.

Lemma default_worker_count_witness :
  NUM_PARALLEL 2 = 0%Z ∧ NUM_PARALLEL 16 = 12%Z
  ∧ ((1 ≤ NUM_PARALLEL 5)%Z ↔ (4 ≤ 5)%Z).
Proof.
  destruct (default_worker_count 5 ltac:(done)) as (_ & _ & Hiff & _).
  split_and!; [done|done|exact Hiff].
Defined.

(** ** The timeout message *)

Lemma replace_app c t s1 s2 :
  Str.replace c t (s1 +:+ s2) = Str.replace c t s1 +:+ Str.replace c t s2.
Proof.
  induction s1 as [|c' s1 IH]; [done|].
  change (String c' s1 +:+ s2) with (String c' (s1 +:+ s2)).
  cbn [Str.replace]. rewrite IH. destruct (decide (c' = c)); [|done].
  by rewrite append_assoc.
Qed.

Lemma replace_absent c t s : Str.contains c s = false → Str.replace c t s = s.
Proof.
  induction s as [|c' s IH]; [done|]. cbn [Str.contains Str.replace].
  intros [Hc Hs]%orb_false_elim. apply bool_decide_eq_false in Hc.
  rewrite decide_False by done. by rewrite IH.
Qed.

Lemma string_of_uint_no_paren d : Str.contains ")"%char (NilEmpty.string_of_uint d) = false.
Proof. induction d; simpl; done. Qed.

Lemma replace_paren_message closing timeout name item :
  Str.replace ")"%char closing
    ("Task timed out after " +:+ Str.of_nat timeout +:+ " seconds: "
     +:+ name +:+ "(" +:+ item +:+ ")")
  = ("Task timed out after " +:+ Str.of_nat timeout +:+ " seconds: ")
    +:+ Str.replace ")"%char closing name +:+ "("
    +:+ Str.replace ")"%char closing item +:+ closing.
Proof.
  rewrite !replace_app.
  rewrite (replace_absent _ _ "Task timed out after ") by done.
  rewrite (replace_absent _ _ (Str.of_nat timeout)) by apply string_of_uint_no_paren.
  rewrite (replace_absent _ _ " seconds: ") by done.
  rewrite (replace_absent _ _ "(") by done.
  change (Str.replace ")"%char closing ")") with (closing +:+ "").
  by rewrite append_nil_r, !append_assoc.
Qed.

(** X12.  The message of a task that timed out.  Without keyword
    arguments it is [Task timed out after T seconds: f(item)].  With
    keyword arguments the text [, k1=v1, ..., kn=vn)] takes the place of
    every closing parenthesis of that message, not only of the last
    one: when neither the name nor the item holds a parenthesis the
    result is [f(item, k1=v1, ..., kn=vn)], and otherwise the keyword
    arguments are repeated inside the name or the item. *)
Theorem error_info_message {I : Type} (func_name : string) (item_str : I → string)
    (kwargs : list (string * string)) (timeout : nat) (item : I) :
  let opening := "Task timed out after " +:+ Str.of_nat timeout +:+ " seconds: " in
  let closing :=
    ", " +:+ Str.join ", " (map (λ kv, kv.1 +:+ "=" +:+ kv.2) kwargs) +:+ ")" in
  (kwargs = [] →
   error_info func_name item_str kwargs timeout item
   = opening +:+ func_name +:+ "(" +:+ item_str item +:+ ")")
  ∧ (kwargs ≠ [] →
     error_info func_name item_str kwargs timeout item
     = opening +:+ Str.replace ")"%char closing func_name +:+ "("
       +:+ Str.replace ")"%char closing (item_str item) +:+ closing)
  ∧ (kwargs ≠ [] →
     Str.contains ")"%char func_name = false →
     Str.contains ")"%char (item_str item) = false →
     error_info func_name item_str kwargs timeout item
     = opening +:+ func_name +:+ "(" +:+ item_str item +:+ closing).
Proof.
  intros opening closing.
  assert (kwargs ≠ [] →
          error_info func_name item_str kwargs timeout item
          = opening +:+ Str.replace ")"%char closing func_name +:+ "("
            +:+ Str.replace ")"%char closing (item_str item) +:+ closing) as Hgen.
  { intros Hkw. destruct kwargs as [|kv kwargs]; [done|].
    exact (replace_paren_message closing timeout func_name (item_str item)). }
  split_and!.
  - intros ->. unfold error_info. cbn [map].
    change (Str.join ", " [item_str item]) with (item_str item).
    subst opening. by rewrite !append_assoc.
  - exact Hgen.
  - intros Hkw Hname Hitem. rewrite Hgen by done.
    by rewrite !replace_absent by done.
Qed.

Example error_info_tuple_item :
  error_info "dock" (λ s : string, s) [("precision", "SP")] 5 "(R1, lig)"
  = "Task timed out after 5 seconds: dock((R1, lig, precision=SP), precision=SP)".
Proof. by vm_compute. Qed.

(** ** [split_ligand]: the structure files *)

Lemma of_nat_head n :
  ∃ c r, Str.of_nat n = String c r ∧ c ≠ "/"%char ∧ c ≠ "l"%char.
Proof.
  unfold Str.of_nat.
  pose proof (Unsigned.to_of (Nat.to_uint n)) as Hnorm. rewrite Unsigned.of_to in Hnorm.
  destruct (Nat.to_uint n); [done|..]; cbn [NilEmpty.string_of_uint]; by eauto.
Qed.

Lemma structure_label_head e :
  ∃ c r, structure_label e = String c r ∧ c ≠ "/"%char ∧ c ≠ "l"%char.
Proof.
  unfold structure_label, st_name_of.
  destruct (of_nat_head e.1) as (c & r & -> & Hc). by eauto.
Qed.

Lemma structure_path_inj dir e e' :
  structure_path dir e = structure_path dir e' → e.1 = e'.1.
Proof.
  unfold structure_path. intros Heq.
  destruct (structure_label_head e) as (c & r & He & Hc & _).
  destruct (structure_label_head e') as (c' & r' & He' & Hc' & _).
  rewrite He, He' in Heq.
  change (String c r +:+ ".mae") with (String c (r +:+ ".mae")) in Heq.
  change (String c' r' +:+ ".mae") with (String c' (r' +:+ ".mae")) in Heq.
  apply path_join_inj in Heq; [|done..].
  change (String c r +:+ ".mae" = String c' r' +:+ ".mae") in Heq.
  apply append_inj_r in Heq. rewrite <- He, <- He' in Heq.
  by apply st_name_of_inj in Heq.
Qed.

Lemma structure_path_not_label_csv dir e :
  structure_path dir e ≠ Str.path_join dir "label.csv".
Proof.
  unfold structure_path. intros Heq.
  destruct (structure_label_head e) as (c & r & He & Hc & Hl).
  rewrite He in Heq.
  change (String c r +:+ ".mae") with (String c (r +:+ ".mae")) in Heq.
  apply path_join_inj in Heq; [|done..]. by injection Heq.
Qed.

Lemma structure_paths_NoDup dir (structures : list Structure.t) :
  NoDup (map (structure_path dir) (imap pair structures)).
Proof.
  apply (NoDup_fmap_2_strong (structure_path dir)); [|apply NoDup_imap_pair].
  intros [i st] [j st'] Hi Hj Heq. apply structure_path_inj in Heq. simpl in Heq. subst j.
  apply elem_of_imap_pair in Hi, Hj. by simplify_eq.
Qed.

Lemma first_untitled (es : list (nat * Structure.t)) :
  Forall (λ e, has_title e.2) es
  ∨ ∃ es1 e es2, es = es1 ++ e :: es2 ∧ Forall (λ e, has_title e.2) es1 ∧ ¬ has_title e.2.
Proof.
  induction es as [|e es IH]; [by left|].
  destruct (decide (has_title e.2)) as [He|He].
  - destruct IH as [IH|(es1 & e' & es2 & -> & H1 & H2)].
    + left. by constructor.
    + right. exists (e :: es1), e', es2. split_and!; [done|by constructor|done].
  - right. by exists [], e, es.
Qed.

Lemma titled_entries (structures : list Structure.t) :
  Forall has_title structures → Forall (λ e, has_title e.2) (imap pair structures).
Proof.
  rewrite !Forall_forall. intros Hall [i st] Hin.
  apply elem_of_imap_pair in Hin. apply Hall. by eapply list_elem_of_lookup_2.
Qed.

Section split_ligand_files.
Context `{Common}.
Implicit Types (fs : FS) (e : nat * Structure.t) (es : list (nat * Structure.t)).

Lemma split_ligand_body_run dir overwrite labels paths e fs :
  has_title e.2 →
  split_ligand_body dir overwrite (labels, paths) e fs
  = (Ok (labels ++ [label_line e], paths ++ [structure_path dir e]),
     store_structure dir overwrite fs e).
Proof.
  destruct e as [i st]. intros [title Htitle]. simpl in Htitle.
  unfold split_ligand_body, property_get, mbind, M_bind, lift, get, store_structure.
  cbn [Structure.property]. rewrite Htitle, find_activity_keeps_index.
  unfold structure_path, label_line, structure_label, title_of, indexed_structure.
  cbn [fst snd]. rewrite Htitle. cbn [default].
  by destruct (negb _ || overwrite).
Qed.

Lemma split_ligand_body_no_title dir overwrite acc e fs :
  ¬ has_title e.2 →
  split_ligand_body dir overwrite acc e fs = (Raise (KeyError "s_m_title"), fs).
Proof.
  destruct e as [i st], acc as [labels paths]. unfold has_title. simpl.
  intros Hno. unfold split_ligand_body, property_get, mbind, M_bind, lift.
  destruct (Structure.property st !! "s_m_title") eqn:Hst; [|done].
  destruct Hno. by eexists.
Qed.

Lemma split_ligand_loop_run dir overwrite es labels paths fs :
  Forall (λ e, has_title e.2) es →
  for_each es (split_ligand_body dir overwrite) (labels, paths) fs
  = (Ok (labels ++ map label_line es, paths ++ map (structure_path dir) es),
     foldl (store_structure dir overwrite) fs es).
Proof.
  intros Hes. revert labels paths fs.
  induction Hes as [|e es He Hes IH]; intros labels paths fs; cbn [for_each map foldl].
  - by rewrite !app_nil_r.
  - unfold mbind at 1, M_bind at 1. rewrite split_ligand_body_run by done.
    rewrite IH. by rewrite <- !app_assoc.
Qed.

Lemma split_ligand_loop_stop dir overwrite es1 e es2 labels paths fs :
  Forall (λ e, has_title e.2) es1 → ¬ has_title e.2 →
  for_each (es1 ++ e :: es2) (split_ligand_body dir overwrite) (labels, paths) fs
  = (Raise (KeyError "s_m_title"), foldl (store_structure dir overwrite) fs es1).
Proof.
  intros Hes He. revert labels paths fs.
  induction Hes as [|e1 es1 He1 Hes IH]; intros labels paths fs;
    cbn [app for_each foldl]; unfold mbind at 1, M_bind at 1.
  - by rewrite split_ligand_body_no_title.
  - rewrite split_ligand_body_run by done. apply IH.
Qed.

Lemma split_ligand_run ligand_file save_dir overwrite fs :
  Forall has_title (LigandFile.structures ligand_file) →
  let dir := default (LigandFile.file_dir ligand_file) save_dir in
  let es := imap pair (LigandFile.structures ligand_file) in
  split_ligand ligand_file save_dir overwrite fs
  = (Ok (map (structure_path dir) es),
     <[Str.path_join dir "label.csv" := Str.join (String Str.LF "") (map label_line es)]>
       (foldl (store_structure dir overwrite) fs es)).
Proof.
  intros Hall dir es. unfold split_ligand. fold dir es.
  unfold mbind at 1, M_bind at 1.
  by rewrite split_ligand_loop_run by by apply titled_entries.
Qed.

Lemma split_ligand_stops ligand_file save_dir overwrite fs es1 e es2 :
  imap pair (LigandFile.structures ligand_file) = es1 ++ e :: es2 →
  Forall (λ e, has_title e.2) es1 → ¬ has_title e.2 →
  split_ligand ligand_file save_dir overwrite fs
  = (Raise (KeyError "s_m_title"),
     foldl (store_structure (default (LigandFile.file_dir ligand_file) save_dir) overwrite)
       fs es1).
Proof.
  intros Hsplit Hes He. unfold split_ligand. rewrite Hsplit.
  unfold mbind at 1, M_bind at 1.
  by rewrite split_ligand_loop_stop by done.
Qed.

Lemma store_lookup_other dir overwrite es fs p :
  p ∉ map (structure_path dir) es →
  foldl (store_structure dir overwrite) fs es !! p = fs !! p.
Proof.
  revert fs. induction es as [|e es IH]; intros fs Hp; [done|].
  cbn [foldl map] in *. rewrite not_elem_of_cons in Hp. destruct Hp as [Hne Hp].
  rewrite IH by done. unfold store_structure.
  destruct (negb _ || overwrite); [|done]. by rewrite lookup_insert_ne.
Qed.

Lemma store_lookup dir overwrite es fs e :
  NoDup (map (structure_path dir) es) → e ∈ es →
  (∀ e', e' ∈ es → structure_path dir e' = structure_path dir e → e' = e) →
  foldl (store_structure dir overwrite) fs es !! structure_path dir e
  = Some (if overwrite then Structure_write (indexed_structure e)
          else default (Structure_write (indexed_structure e))
                 (fs !! structure_path dir e)).
Proof.
  revert fs. induction es as [|e0 es IH]; intros fs Hnd Hin Huniq; [by apply elem_of_nil in Hin|].
  cbn [map] in Hnd. apply NoDup_cons in Hnd as [Hfresh Hnd]. cbn [foldl].
  destruct (decide (structure_path dir e0 = structure_path dir e)) as [Heq|Hne].
  - assert (e0 = e) as -> by (apply Huniq; [left|done]).
    rewrite store_lookup_other by done. unfold store_structure.
    destruct (fs !! structure_path dir e) as [old|] eqn:Hold; simpl.
    + destruct overwrite; simpl; [by rewrite lookup_insert_eq|by rewrite Hold].
    + rewrite lookup_insert_eq. by destruct overwrite.
  - apply elem_of_cons in Hin as [->|Hin]; [done|].
    rewrite IH; [|done|done|].
    + unfold store_structure at 1.
      destruct (negb _ || overwrite); [|done]. by rewrite lookup_insert_ne.
    + intros e' He'. apply Huniq. by right.
Qed.

Lemma store_lookup_entry dir overwrite (structures : list Structure.t) fs i st :
  structures !! i = Some st →
  foldl (store_structure dir overwrite) fs (imap pair structures)
    !! structure_path dir (i, st)
  = Some (if overwrite then Structure_write (indexed_structure (i, st))
          else default (Structure_write (indexed_structure (i, st)))
                 (fs !! structure_path dir (i, st))).
Proof.
  intros Hi. apply store_lookup.
  - apply structure_paths_NoDup.
  - by apply elem_of_imap_pair.
  - intros [j st'] Hj Heq. apply structure_path_inj in Heq. simpl in Heq. subst j.
    apply elem_of_imap_pair in Hj. by simplify_eq.
Qed.

End split_ligand_files.

(** X13.  The structure files of [split_ligand].  For a ligand file
    whose structures all carry a title, the file of the structure at
    position [i] holds what [structure.write] gives for the structure
    with [i_user_StructureIndex] set to [i], unless [overwrite] is off
    and a file of that name was there already, which is then kept as it
    was.  Every path that is neither returned nor [label.csv] is left
    untouched. *)
Theorem split_ligand_files `{Common} (ligand_file : LigandFile.t)
    (save_dir : option string) (overwrite : bool) (fs : FS) :
  Forall has_title (LigandFile.structures ligand_file) →
  let dir := default (LigandFile.file_dir ligand_file) save_dir in
  ∃ paths fs',
    split_ligand ligand_file save_dir overwrite fs = (Ok paths, fs')
    ∧ (∀ i st, LigandFile.structures ligand_file !! i = Some st →
         let written := Structure_write (indexed_structure (i, st)) in
         paths !! i = Some (structure_path dir (i, st))
         ∧ Structure.property (indexed_structure (i, st)) !! "i_user_StructureIndex"
           = Some (Int (Z.of_nat i))
         ∧ fs' !! structure_path dir (i, st)
           = Some (if overwrite then written
                   else default written (fs !! structure_path dir (i, st))))
    ∧ (∀ p, p ∉ paths → p ≠ Str.path_join dir "label.csv" → fs' !! p = fs !! p).
Proof.
  intros Hall dir. eexists _, _. split; [by apply split_ligand_run|].
  fold dir. split.
  - intros i st Hi written. split_and!.
    + rewrite list_lookup_fmap, list_lookup_imap, Hi. done.
    + unfold indexed_structure. cbn [Structure.property fst]. by rewrite lookup_insert_eq.
    + rewrite lookup_insert_ne by (intros Heq; by apply (structure_path_not_label_csv dir (i, st))).
      by apply store_lookup_entry.
  - intros p Hp Hcsv. rewrite lookup_insert_ne by done. by apply store_lookup_other.
Qed.

Lemma split_ligand_files_witness :
  let st1 := Structure.mk {[ "s_m_title" := Text "aspirin" ]} in
  let st2 := Structure.mk {[ "s_m_title" := Text "caffeine" ]} in
  let lib := LigandFile.mk "/lib/all.mae" "/lib" "all.mae" "all" [st1; st2] in
  let fs : FS := {[ "/lib/1-caffeine.mae" := "earlier"; "/lib/notes.txt" := "keep" ]} in
  ∃ fs',
    @split_ligand Run.common lib None false fs
    = (Ok ["/lib/0-aspirin.mae"; "/lib/1-caffeine.mae"], fs')
    ∧ fs' !! "/lib/0-aspirin.mae" = Some "aspirin"
    ∧ fs' !! "/lib/1-caffeine.mae" = Some "earlier"
    ∧ fs' !! "/lib/notes.txt" = Some "keep".
Proof.
  intros st1 st2 lib fs.
  destruct (@split_ligand_files Run.common lib None false fs)
    as (paths & fs' & Hrun & Hfiles & Hframe).
  { apply (bool_decide_unpack _). by vm_compute. }
  assert (paths = ["/lib/0-aspirin.mae"; "/lib/1-caffeine.mae"]) as ->.
  { vm_compute in Hrun. by injection Hrun as <- _. }
  exists fs'. split_and!.
  - exact Hrun.
  - destruct (Hfiles 0 st1 eq_refl) as (_ & _ & Hfile). exact Hfile.
  - destruct (Hfiles 1 st2 eq_refl) as (_ & _ & Hfile). exact Hfile.
  - rewrite Hframe; [done| |done].
    apply (bool_decide_unpack _). by vm_compute.
Defined.

(** X14.  [split_ligand] can be repeated: a second call on the files
    the first one left, with the same arguments, returns the same paths
    and changes no file, with [overwrite] on or off. *)
Theorem split_ligand_idempotent `{Common} (ligand_file : LigandFile.t)
    (save_dir : option string) (overwrite : bool) (fs fs' : FS) (paths : list string) :
  split_ligand ligand_file save_dir overwrite fs = (Ok paths, fs') →
  split_ligand ligand_file save_dir overwrite fs' = (Ok paths, fs').
Proof.
  intros Hrun.
  destruct (first_untitled (imap pair (LigandFile.structures ligand_file)))
    as [Hall|(es1 & e & es2 & Hsplit & Hes1 & He)]; cycle 1.
  { by rewrite (split_ligand_stops _ _ _ _ _ _ _ Hsplit Hes1 He) in Hrun. }
  assert (Forall has_title (LigandFile.structures ligand_file)) as Htitled.
  { rewrite Forall_forall. intros st [i Hi]%list_elem_of_lookup_1.
    rewrite Forall_forall in Hall.
    apply (Hall (i, st)). by apply elem_of_imap_pair. }
  rewrite split_ligand_run in Hrun by done. rewrite split_ligand_run by done.
  injection Hrun as <- <-. f_equal.
  set (dir := default (LigandFile.file_dir ligand_file) save_dir).
  set (es := imap pair (LigandFile.structures ligand_file)).
  set (csv := Str.path_join dir "label.csv").
  set (text := Str.join (String Str.LF "") (map label_line es)).
  apply map_eq. intros p.
  destruct (decide (p = csv)) as [->|Hcsv]; [by rewrite !lookup_insert_eq|].
  rewrite (lookup_insert_ne _ csv p) by done.
  destruct (decide (p ∈ map (structure_path dir) es)) as [Hin|Hout].
  - apply list_elem_of_fmap in Hin as ([i st] & -> & Hin).
    apply elem_of_imap_pair in Hin. subst es.
    rewrite !store_lookup_entry by done.
    rewrite lookup_insert_ne by done. rewrite store_lookup_entry by done.
    by destruct overwrite.
  - rewrite store_lookup_other by done. by rewrite lookup_insert_ne by done.
Qed.

Lemma split_ligand_idempotent_witness :
  let st1 := Structure.mk {[ "s_m_title" := Text "aspirin" ]} in
  let st2 := Structure.mk {[ "s_m_title" := Text "caffeine" ]} in
  let lib := LigandFile.mk "/lib/all.mae" "/lib" "all.mae" "all" [st1; st2] in
  let fs : FS := {[ "/lib/1-caffeine.mae" := "earlier" ]} in
  ∃ paths fs',
    @split_ligand Run.common lib None true fs = (Ok paths, fs')
    ∧ @split_ligand Run.common lib None true fs' = (Ok paths, fs')
    ∧ fs' !! "/lib/1-caffeine.mae" = Some "caffeine".
Proof.
  intros st1 st2 lib fs.
  destruct (@split_ligand Run.common lib None true fs) as [r fs'] eqn:Hrun.
  destruct r as [paths|e]; [|by vm_compute in Hrun].
  exists paths, fs'. split_and!.
  - done.
  - by apply (@split_ligand_idempotent Run.common lib None true fs fs' paths).
  - vm_compute in Hrun. by injection Hrun as _ <-.
Defined.

(** X15.  A structure without [s_m_title] stops [split_ligand] with
    [KeyError('s_m_title')] at its position: the structures before it
    have their files, the structures after it get none, and
    [label.csv] is not written, so a label file of an earlier run
    stays as it was. *)
Theorem split_ligand_missing_title `{Common} (ligand_file : LigandFile.t)
    (save_dir : option string) (overwrite : bool) (fs : FS)
    (before after : list Structure.t) (structure : Structure.t) :
  LigandFile.structures ligand_file = before ++ structure :: after →
  Forall has_title before → ¬ has_title structure →
  let dir := default (LigandFile.file_dir ligand_file) save_dir in
  ∃ fs',
    split_ligand ligand_file save_dir overwrite fs = (Raise (KeyError "s_m_title"), fs')
    ∧ fs' !! Str.path_join dir "label.csv" = fs !! Str.path_join dir "label.csv"
    ∧ (∀ i st, before !! i = Some st → is_Some (fs' !! structure_path dir (i, st)))
    ∧ (∀ i st, (structure :: after) !! i = Some st →
         fs' !! structure_path dir (length before + i, st)
         = fs !! structure_path dir (length before + i, st)).
Proof.
  intros Hsplit Hbefore Hnone dir.
  assert (imap pair (LigandFile.structures ligand_file)
          = imap pair before
            ++ (length before, structure)
               :: imap (λ i, pair (length before + S i)) after) as Hes.
  { rewrite Hsplit, imap_app. cbn [imap]. rewrite Nat.add_0_r.
    reflexivity. }
  eexists. split.
  { eapply split_ligand_stops; [exact Hes|by apply titled_entries|done]. }
  fold dir. split_and!.
  - apply store_lookup_other. intros ([i st] & Heq & _)%list_elem_of_fmap.
    by apply (structure_path_not_label_csv dir (i, st)).
  - intros i st Hi. rewrite store_lookup_entry by done. by eexists.
  - intros i st Hi. apply store_lookup_other.
    intros ([j st'] & Heq & Hj)%list_elem_of_fmap.
    apply structure_path_inj in Heq. simpl in Heq. subst j.
    apply elem_of_imap_pair in Hj. apply lookup_lt_Some in Hj. lia.
Qed.

Lemma split_ligand_missing_title_witness :
  let st1 := Structure.mk {[ "s_m_title" := Text "aspirin" ]} in
  let st2 := Structure.mk {[ "b_user_Activity" := Bool true ]} in
  let st3 := Structure.mk {[ "s_m_title" := Text "caffeine" ]} in
  let lib := LigandFile.mk "/lib/all.mae" "/lib" "all.mae" "all" [st1; st2; st3] in
  let fs : FS := {[ "/lib/label.csv" := "0-old,1" ]} in
  ∃ fs',
    @split_ligand Run.common lib None false fs = (Raise (KeyError "s_m_title"), fs')
    ∧ fs' !! "/lib/label.csv" = Some "0-old,1"
    ∧ is_Some (fs' !! "/lib/0-aspirin.mae")
    ∧ fs' !! "/lib/2-caffeine.mae" = None.
Proof.
  intros st1 st2 st3 lib fs.
  destruct (@split_ligand_missing_title Run.common lib None false fs [st1] [st3] st2)
    as (fs' & Hrun & Hcsv & Hbefore & Hafter).
  { done. }
  { apply (bool_decide_unpack _). by vm_compute. }
  { intros Htitle. by apply (bool_decide_pack _) in Htitle. }
  exists fs'. split_and!.
  - exact Hrun.
  - exact Hcsv.
  - exact (Hbefore 0 st1 eq_refl).
  - exact (Hafter 1 st3 eq_refl).
Defined.

(** ** From the split files to the ligand names *)

Lemma split_two c s :
  Str.contains c s = true → ∃ w1 w2 ws, Str.split c s = w1 :: w2 :: ws.
Proof.
  induction s as [|x s IH]; [done|]. cbn [Str.contains Str.split].
  destruct (decide (x = c)) as [->|Hne].
  - intros _. pose proof (split_nonempty c s). destruct (Str.split c s); [done|]. by eauto.
  - rewrite bool_decide_eq_false_2 by done. simpl. intros Hs.
    destruct (IH Hs) as (w1 & w2 & ws & ->). by eauto.
Qed.

(** What follows the last separator is the last field. *)
Lemma last_split_app_sep c s t :
  Str.contains c t = false →
  List.last (Str.split c (s +:+ String c t)) "" = t.
Proof.
  intros Ht. induction s as [|x s IH].
  - change ("" +:+ String c t) with (String c t). cbn [Str.split].
    rewrite decide_True by done. by rewrite split_no_sep.
  - change (String x s +:+ String c t) with (String x (s +:+ String c t)).
    cbn [Str.split].
    destruct (split_two c (s +:+ String c t)) as (w1 & w2 & ws & Hsplit).
    { rewrite contains_app. cbn [Str.contains].
      rewrite bool_decide_eq_true_2 by done. by rewrite orb_true_r. }
    rewrite Hsplit in IH |- *. by destruct (decide (x = c)).
Qed.

Lemma head_split_app_sep c s t :
  head (Str.split c (s +:+ String c t)) = head (Str.split c s).
Proof.
  induction s as [|x s IH].
  - change ("" +:+ String c t) with (String c t). cbn [Str.split].
    by rewrite decide_True.
  - change (String x s +:+ String c t) with (String x (s +:+ String c t)).
    cbn [Str.split]. destruct (decide (x = c)); [done|].
    pose proof (split_nonempty c s). pose proof (split_nonempty c (s +:+ String c t)).
    destruct (Str.split c s), (Str.split c (s +:+ String c t)); try done.
    simpl in *. by simplify_eq.
Qed.

Lemma rev_app_head s acc c r :
  String.rev_app s acc = String c r →
  (s = "" ∧ acc = String c r) ∨ ∃ s', s = s' +:+ String c "".
Proof.
  revert acc. induction s as [|x s IH]; intros acc Heq; [by left|].
  right. cbn [String.rev_app] in Heq.
  destruct (IH _ Heq) as [[-> Hacc]|(s' & ->)].
  - injection Hacc as -> _. by exists "".
  - by exists (String x s').
Qed.

Lemma ends_with_slash_app a :
  Str.ends_with_slash a = true → ∃ a', a = a' +:+ "/".
Proof.
  unfold Str.ends_with_slash, String.rev.
  destruct (String.rev_app a "") as [|c r] eqn:Hrev; [done|].
  intros Hc%bool_decide_eq_true. subst c.
  by destruct (rev_app_head _ _ _ _ Hrev) as [[_ ?]|?].
Qed.

(** [os.path.basename(os.path.join(a, b))] is [b] for a plain name. *)
Lemma basename_path_join a b :
  Str.contains "/"%char b = false → Str.basename (Str.path_join a b) = b.
Proof.
  intros Hb. unfold Str.basename, Str.path_join.
  assert (∀ X Y : string, match b with String "/" _ => X | _ => Y end = Y) as ->.
  { intros X Y. destruct b as [|c r]; [done|].
    cbn [Str.contains] in Hb. apply orb_false_elim in Hb as [Hc _].
    apply bool_decide_eq_false in Hc.
    destruct c as [[] [] [] [] [] [] [] []]; try done. }
  destruct (bool_decide (a = "") || Str.ends_with_slash a) eqn:Hcase.
  - apply orb_true_iff in Hcase as [Ha|Ha].
    + apply bool_decide_eq_true in Ha. subst a.
      change ("" +:+ b) with b. by rewrite split_no_sep.
    + apply ends_with_slash_app in Ha as [a' ->]. rewrite append_assoc.
      change ("/" +:+ b) with (String "/"%char b). by apply last_split_app_sep.
  - change ("/" +:+ b) with (String "/"%char b). by apply last_split_app_sep.
Qed.

Lemma string_of_uint_no_dot d : Str.contains "."%char (NilEmpty.string_of_uint d) = false.
Proof. induction d; simpl; done. Qed.

Lemma string_of_uint_no_slash d : Str.contains "/"%char (NilEmpty.string_of_uint d) = false.
Proof. induction d; simpl; done. Qed.

Lemma ligand_name_of_structure_path dir e :
  Str.contains "/"%char (value_str (title_of e.2)) = false →
  ligand_name_of (structure_path dir e)
  = default "" (head (Str.split "."%char (structure_label e))).
Proof.
  intros Hslash. unfold ligand_name_of, structure_path.
  rewrite basename_path_join.
  - change (".mae") with (String "."%char "mae"). by rewrite head_split_app_sep.
  - unfold structure_label, st_name_of. rewrite !contains_app.
    unfold Str.of_nat. by rewrite string_of_uint_no_slash, Hslash.
Qed.

Lemma structure_label_no_dot e :
  Str.contains "."%char (value_str (title_of e.2)) = false →
  Str.contains "."%char (structure_label e) = false.
Proof.
  intros Hdot. unfold structure_label, st_name_of. rewrite !contains_app.
  unfold Str.of_nat. by rewrite string_of_uint_no_dot, Hdot.
Qed.

(** X16.  The ligand names that [multi_extract_data] reads off the
    paths returned by [split_ligand]
    ([os.path.basename(path).split('.')[0]]).  For titles without a
    slash the name of the structure at position [i] is its label
    [i-title] cut at the first dot; so for titles with neither slash nor
    dot the names are exactly the labels written to [label.csv], and a
    title with a dot gives a name that differs from its label. *)
Theorem split_ligand_names `{Common} (ligand_file : LigandFile.t)
    (save_dir : option string) (overwrite : bool) (fs : FS) :
  Forall has_title (LigandFile.structures ligand_file) →
  Forall (λ st, Str.contains "/"%char (value_str (title_of st)) = false)
    (LigandFile.structures ligand_file) →
  ∃ paths fs',
    split_ligand ligand_file save_dir overwrite fs = (Ok paths, fs')
    ∧ map ligand_name_of paths
      = map (λ e, default "" (head (Str.split "."%char (structure_label e))))
          (imap pair (LigandFile.structures ligand_file))
    ∧ (Forall plain_title (LigandFile.structures ligand_file) →
       map ligand_name_of paths
       = map structure_label (imap pair (LigandFile.structures ligand_file)))
    ∧ (∀ i st, LigandFile.structures ligand_file !! i = Some st →
       Str.contains "."%char (value_str (title_of st)) = true →
       map ligand_name_of paths !! i ≠ Some (structure_label (i, st))).
Proof.
  intros Htitled Hslash.
  assert (map ligand_name_of
            (map (structure_path (default (LigandFile.file_dir ligand_file) save_dir))
               (imap pair (LigandFile.structures ligand_file)))
          = map (λ e, default "" (head (Str.split "."%char (structure_label e))))
              (imap pair (LigandFile.structures ligand_file))) as Hnames.
  { rewrite map_map. apply map_ext_in. intros [i st] Hin%list_elem_of_In.
    apply elem_of_imap_pair in Hin. apply ligand_name_of_structure_path.
    rewrite Forall_forall in Hslash. apply Hslash. by eapply list_elem_of_lookup_2. }
  eexists _, _. split; [by apply split_ligand_run|]. split_and!.
  - exact Hnames.
  - intros Hplain. rewrite Hnames. apply map_ext_in.
    intros [i st] Hin%list_elem_of_In. apply elem_of_imap_pair in Hin.
    rewrite split_no_sep; [done|]. apply structure_label_no_dot.
    rewrite Forall_forall in Hplain. by apply (Hplain st); eapply list_elem_of_lookup_2.
  - intros i st Hi Hdot. rewrite Hnames, list_lookup_fmap, list_lookup_imap, Hi. simpl.
    intros Heq. injection Heq as Heq.
    assert (Str.contains "."%char (structure_label (i, st)) = true) as Hlabel.
    { unfold structure_label, st_name_of. rewrite !contains_app. cbn [fst snd].
      by rewrite Hdot, !orb_true_r. }
    destruct (split_two _ _ Hlabel) as (w1 & w2 & ws & Hsplit).
    rewrite Hsplit in Heq. simpl in Heq. subst w1.
    pose proof (join_split "."%char (structure_label (i, st))) as Hjoin.
    rewrite Hsplit in Hjoin. apply (f_equal String.length) in Hjoin.
    revert Hjoin. unfold Str.join. cbn [String.concat].
    destruct ws; rewrite !length_append; simpl; lia.
Qed.

Lemma split_ligand_names_witness :
  let st1 := Structure.mk {[ "s_m_title" := Text "aspirin" ]} in
  let st2 := Structure.mk {[ "s_m_title" := Text "vitamin B1.5" ]} in
  let lib := LigandFile.mk "/lib/all.mae" "/lib" "all.mae" "all" [st1; st2] in
  ∃ paths fs',
    @split_ligand Run.common lib (Some "/work/ligands/") false ∅ = (Ok paths, fs')
    ∧ map ligand_name_of paths = ["0-aspirin"; "1-vitamin B1"].
Proof.
  intros st1 st2 lib.
  destruct (@split_ligand_names Run.common lib (Some "/work/ligands/") false ∅)
    as (paths & fs' & Hrun & Hnames & _).
  { apply (bool_decide_unpack _). by vm_compute. }
  { apply (bool_decide_unpack _). by vm_compute. }
  exists paths, fs'. split; [exact Hrun|]. rewrite Hnames. by vm_compute.
Defined.

(** ** [multi_extract_data] with a ledger *)

Lemma for_each_collect {S A B : Type} (l : list A) (body : list B → A → M S (list B))
    (g : A → list B) :
  (∀ acc a s, body acc a s = (Ok (acc ++ g a), s)) →
  ∀ acc s, for_each l body acc s = (Ok (acc ++ flat_map g l), s).
Proof.
  intros Hbody. induction l as [|a l IH]; intros acc s; cbn [for_each flat_map].
  - by rewrite app_nil_r.
  - unfold mbind, M_bind. rewrite Hbody.
    change (for_each l body (acc ++ g a) s = (Ok (acc ++ g a ++ flat_map g l), s)).
    by rewrite IH, <- app_assoc.
Qed.

Lemma expected_paths_loops base precision failed pairs names :
  flat_map (λ pair : string * string,
              flat_map (λ name, if decide ((pair.1, pair.2, name) ∈ failed) then []
                                else [dockfile_path base pair.1 pair.2 name precision])
                names) pairs
  = expected_paths base precision failed pairs names.
Proof.
  unfold expected_paths, expected_keys.
  induction pairs as [|pair pairs IH]; [done|].
  cbn [flat_map]. rewrite filter_app, map_app, IH. f_equal.
  clear IH. induction names as [|name names IH]; [done|].
  cbn [flat_map map]. rewrite filter_cons. rewrite IH.
  destruct (decide ((pair.1, pair.2, name) ∈ failed)).
  - by rewrite decide_False by tauto.
  - by rewrite decide_True by done.
Qed.

Lemma filter_not_failed_nil (keys : list triple) : filter (λ key, key ∉ []) keys = keys.
Proof.
  induction keys as [|key keys IH]; [done|].
  rewrite filter_cons, decide_True, IH; [done|]. apply not_elem_of_nil.
Qed.

Section extract.
Context `{Common} {D : Type}.
Variable extra_docking_data : pool_run DockResultFile.t D.

Lemma multi_extract_data_run precision num_parallel w paths failed :
  Console.dock_file_list (self w) = None →
  Console.ligand_path_list (self w) = Some paths →
  load_ledger (Console.result_save_dir (self w)) precision (files w) = Ok (Some failed) →
  multi_extract_data extra_docking_data precision num_parallel w
  = run_pool extra_docking_data
      (map DockResultFile_new
         (expected_paths (Console.base_dock_save_dir (self w)) precision failed
            (Console.pairs_list (self w)) (map ligand_name_of paths)))
      num_parallel
      (World (Console.set_dock_file_list
                (map DockResultFile_new
                   (expected_paths (Console.base_dock_save_dir (self w)) precision failed
                      (Console.pairs_list (self w)) (map ligand_name_of paths)))
                (self w))
             (files w)).
Proof.
  intros Hd Hl Hload. destruct w as [c fs]. simpl in *.
  unfold multi_extract_data, mbind, M_bind, get_self. simpl. rewrite Hd, Hl. simpl.
  rewrite (get_failed_list_eval precision (World c fs)). simpl. rewrite Hload.
  rewrite (for_each_collect _ _
             (λ pair : string * string,
                flat_map (λ name, if decide ((pair.1, pair.2, name) ∈ failed) then []
                                  else [dockfile_path (Console.base_dock_save_dir c)
                                          pair.1 pair.2 name precision])
                  (map ligand_name_of paths))).
  - simpl. by rewrite expected_paths_loops.
  - intros acc [pdbid ligid] s. apply for_each_collect.
    intros acc' name s'. unfold lift, py_in. simpl.
    destruct (decide ((pdbid, ligid, name) ∈ failed)) as [Hin|Hout].
    + rewrite bool_decide_eq_true_2 by done. by rewrite app_nil_r.
    + by rewrite bool_decide_eq_false_2 by done.
Qed.

Lemma multi_extract_data_stored precision num_parallel w dock_file_list :
  Console.dock_file_list (self w) = Some dock_file_list →
  multi_extract_data extra_docking_data precision num_parallel w
  = run_pool extra_docking_data dock_file_list num_parallel w.
Proof.
  intros Hd. destruct w as [c fs]. simpl in *.
  unfold multi_extract_data, mbind, M_bind, get_self. simpl. by rewrite Hd.
Qed.

End extract.

(** X17.  [multi_extract_data] on a console without dock results, with
    ligand paths and with a ledger that loads as [failed].  The pool is
    run on the dock result files of the keys [(pdbid, ligid, name)],
    pairs in the outer loop and ligand names in the inner one, that are
    not in [failed]; with an empty ledger that is one file per pair and
    ligand.  The list is stored in [dock_file_list], so a later call,
    whatever its precision, extracts from the same files. *)
Theorem multi_extract_data_expected `{Common} {D : Type}
    (extra_docking_data : pool_run DockResultFile.t D)
    (precision : string) (num_parallel : Z) (w : world)
    (paths : list string) (failed : list triple) :
  Console.dock_file_list (self w) = None →
  Console.ligand_path_list (self w) = Some paths →
  load_ledger (Console.result_save_dir (self w)) precision (files w) = Ok (Some failed) →
  let expected :=
    map DockResultFile_new
      (expected_paths (Console.base_dock_save_dir (self w)) precision failed
         (Console.pairs_list (self w)) (map ligand_name_of paths)) in
  multi_extract_data extra_docking_data precision num_parallel w
  = run_pool extra_docking_data expected num_parallel
      (World (Console.set_dock_file_list expected (self w)) (files w))
  ∧ (failed = [] → length expected = length (Console.pairs_list (self w)) * length paths)
  ∧ (∀ out w', multi_extract_data extra_docking_data precision num_parallel w = (out, w') →
     ∀ precision' num_parallel',
       multi_extract_data extra_docking_data precision' num_parallel' w'
       = run_pool extra_docking_data expected num_parallel' w').
Proof.
  intros Hd Hl Hload expected.
  pose proof (multi_extract_data_run extra_docking_data precision num_parallel w
                paths failed Hd Hl Hload) as Hrun.
  fold expected in Hrun. split_and!.
  - exact Hrun.
  - intros ->. subst expected. unfold expected_paths, expected_keys.
    rewrite !length_map, filter_not_failed_nil. clear.
    induction (Console.pairs_list (self w)) as [|pair pairs IH]; [done|].
    cbn [flat_map length]. rewrite length_app, !length_map, IH. simpl. lia.
  - intros out w' Hout precision' num_parallel'.
    apply multi_extract_data_stored.
    rewrite Hrun in Hout. unfold run_pool, on_files in Hout. simpl in Hout.
    destruct (extra_docking_data expected num_parallel (files w)) as [r fs1].
    by injection Hout as _ <-.
Qed.

Lemma multi_extract_data_expected_witness :
  let extract : pool_run DockResultFile.t string :=
    λ items num_parallel fs, (Ok (map DockResultFile.docking_ligand_name items), fs) in
  let w := World Run.split_console {[ "/work/result/docking_failed_SP.csv" := "R1,L1,B" ]} in
  Console.result_save_dir Run.split_console = "/work/result"
  ∧ @multi_extract_data Run.common _ extract "SP" 3 w
    = (Ok ["A"; "C"; "A"; "B"; "C"],
       World (Console.set_dock_file_list
                (map (@DockResultFile_new Run.common)
                   [ "/work/dockfiles/R1/R1_L1_glide-dock_A_SP.maegz";
                     "/work/dockfiles/R1/R1_L1_glide-dock_C_SP.maegz";
                     "/work/dockfiles/R2/R2_L2_glide-dock_A_SP.maegz";
                     "/work/dockfiles/R2/R2_L2_glide-dock_B_SP.maegz";
                     "/work/dockfiles/R2/R2_L2_glide-dock_C_SP.maegz" ])
                Run.split_console)
             (files w)).
Proof.
  intros extract w. split; [done|].
  destruct (@multi_extract_data_expected Run.common _ extract "SP" 3 w
              ["/work/ligands/A.mae"; "/work/ligands/B.mae"; "/work/ligands/C.mae"]
              [("R1", "L1", "B")]) as (Hrun & _).
  - done.
  - done.
  - by vm_compute.
  - rewrite Hrun. by vm_compute.
Defined.

(** X18.  After a [multi_dock] that returned, [multi_extract_data]
    extracts from exactly the dock results that the docking tasks
    returned, for any precision argument: with [dock_file_list] set it
    reads neither the ligand paths nor the ledger. *)
Theorem extract_after_dock `{SetIteration} `{Common} {D : Type}
    (dock : pool_run mapping_item DockResultFile.t)
    (extra_docking_data : pool_run DockResultFile.t D)
    (precision : string) (num_parallel : Z) (w w' : world) :
  multi_dock dock precision num_parallel w = (Ok tt, w') →
  ∃ mapping results fs1,
    Console.mapping (self w) = Some mapping
    ∧ dock mapping num_parallel (files w) = (Ok results, fs1)
    ∧ ∀ precision' num_parallel',
        multi_extract_data extra_docking_data precision' num_parallel' w'
        = run_pool extra_docking_data results num_parallel' w'.
Proof.
  intros Hdock.
  destruct (multi_dock_inv _ _ _ _ _ Hdock)
    as (grids & ligands & mapping & results & fs1 & Hg & Hl & Hm & Hpool).
  exists mapping, results, fs1. split_and!; [done|done|].
  intros precision' num_parallel'. apply multi_extract_data_stored.
  rewrite (multi_dock_run _ _ _ _ _ _ _ _ _ Hg Hl Hm Hpool) in Hdock.
  by injection Hdock as <-.
Qed.

Lemma extract_after_dock_witness :
  let extract : pool_run DockResultFile.t string :=
    λ items num_parallel fs, (Ok (map DockResultFile.docking_ligand_name items), fs) in
  ∃ w',
    @multi_dock elements_iteration (Run.dock [("R1", "L1", "B")]) "SP" 3
      (World Run.mapped_console ∅) = (Ok tt, w')
    ∧ @multi_extract_data Run.common _ extract "XP" 3 w'
      = (Ok ["A"; "C"; "A"; "B"; "C"], w').
Proof.
  intros extract.
  destruct (@multi_dock elements_iteration (Run.dock [("R1", "L1", "B")]) "SP" 3
              (World Run.mapped_console ∅)) as [out w'] eqn:Hdock.
  assert (out = Ok tt) as -> by (vm_compute in Hdock; by injection Hdock as <- _).
  exists w'. split; [done|].
  destruct (@extract_after_dock elements_iteration Run.common _
              (Run.dock [("R1", "L1", "B")]) extract "SP" 3 _ _ Hdock)
    as (mapping & results & fs1 & Hm & Hpool & Hextract).
  rewrite Hextract. vm_compute in Hm. injection Hm as <-.
  vm_compute in Hpool. injection Hpool as <- <-.
  unfold run_pool, on_files. simpl. by destruct w'.
Defined.

(** ** The stages in sequence *)

Lemma split_ligand_returns `{Common} ligand_file save_dir overwrite fs paths fs' :
  split_ligand ligand_file save_dir overwrite fs = (Ok paths, fs') →
  paths = map (structure_path (default (LigandFile.file_dir ligand_file) save_dir))
            (imap pair (LigandFile.structures ligand_file)).
Proof.
  intros Hrun.
  destruct (first_untitled (imap pair (LigandFile.structures ligand_file)))
    as [Hall|(es1 & e & es2 & Hsplit & Hes1 & He)]; cycle 1.
  { by rewrite (split_ligand_stops _ _ _ _ _ _ _ Hsplit Hes1 He) in Hrun. }
  unfold split_ligand, mbind at 1, M_bind at 1 in Hrun.
  rewrite split_ligand_loop_run in Hrun by done. by injection Hrun as <- _.
Qed.

Lemma multi_grid_generate_returns grid_generate num_parallel w grids w1 :
  multi_grid_generate grid_generate num_parallel w = (Ok grids, w1) →
  self w1 = Console.set_grid_file_list grids (self w).
Proof.
  destruct w as [c fs].
  unfold multi_grid_generate, mbind, M_bind, get_self, raise, run_pool, on_files,
    set_self, modify, mret, M_ret.
  cbn [self files].
  destruct (Console.minimized_file_list c) as [minimized|]; [|done].
  cbn [self files].
  destruct (grid_generate minimized num_parallel fs) as [[grids'|e] fs']; [|done].
  cbn [self files]. intros Heq. by injection Heq as <- <-.
Qed.

Lemma ligand_split_returns `{Common} external_ligand_file overwrite w paths w' :
  ligand_split external_ligand_file overwrite w = (Ok paths, w') →
  self w' = Console.set_ligand_path_list paths (self w)
  ∧ split_ligand external_ligand_file (Some (Console.ligand_save_dir (self w))) overwrite
      (files w) = (Ok paths, files w').
Proof.
  destruct w as [c fs].
  unfold ligand_split, mbind, M_bind, get_self, on_files, set_self, modify, mret, M_ret.
  cbn [self files].
  destruct (split_ligand external_ligand_file (Some (Console.ligand_save_dir c)) overwrite fs)
    as [[paths'|e] fs']; [|done].
  cbn [self files]. intros Heq. by injection Heq as <- <-.
Qed.

(** X19.  Grid generation, ligand splitting and mapping in sequence.
    When [multi_grid_generate] returns the grids and [ligand_split]
    the paths, and no ledger of the precision exists, [creat_mapping]
    succeeds and stores the full product of the grids with the ligand
    files of the paths, one entry per grid and structure of the
    external ligand file, and writes no file. *)
Theorem stages_build_full_mapping `{Common}
    (grid_generate : pool_run MinimizedFile.t GridFile.t)
    (external_ligand_file : LigandFile.t) (overwrite : bool)
    (precision : string) (num_parallel : Z)
    (w w1 w2 : world) (grids : list GridFile.t) (paths : list string) :
  multi_grid_generate grid_generate num_parallel w = (Ok grids, w1) →
  ligand_split external_ligand_file overwrite w1 = (Ok paths, w2) →
  files w2 !! failed_list_file_path (Console.result_save_dir (self w)) precision = None →
  ∃ w3,
    creat_mapping precision w2 = (Ok tt, w3)
    ∧ Console.mapping (self w3) = Some (cross grids (map LigandFile_new paths))
    ∧ length (cross grids (map LigandFile_new paths))
      = length grids * length (LigandFile.structures external_ligand_file)
    ∧ files w3 = files w2.
Proof.
  intros Hgrid Hsplit Hnone.
  apply multi_grid_generate_returns in Hgrid.
  apply ligand_split_returns in Hsplit as [Hself Hrun].
  apply split_ligand_returns in Hrun.
  assert (Console.result_save_dir (self w2) = Console.result_save_dir (self w)) as Hdir.
  { by rewrite Hself, Hgrid. }
  eexists. split.
  { apply (creat_mapping_run precision _ paths grids None).
    - by rewrite Hself.
    - by rewrite Hself, Hgrid.
    - unfold load_ledger. by rewrite Hdir, Hnone. }
  simpl. rewrite creat_mapping_filter. simpl. rewrite filter_kept_nil.
  split_and!; [done| |done].
  by rewrite length_cross, length_map, Hrun, length_map, length_imap.
Qed.

Lemma stages_build_full_mapping_witness :
  let grid_generate : pool_run MinimizedFile.t GridFile.t :=
    λ items num_parallel fs, (Ok [Run.R1; Run.R2], fs) in
  let st title := Structure.mk {[ "s_m_title" := Text title ]} in
  let lib := LigandFile.mk "/lib/all.mae" "/lib" "all.mae" "all" [st "A"; st "B"; st "C"] in
  let start :=
    Console.mk [("R1", "L1"); ("R2", "L2")] (Some [MinimizedFile.mk "/work/minimize/R1.mae"])
      None None None None None None
      "/work/grid" "/work/ligands" "/work/dockfiles" "/work/result" in
  ∃ w1 w2 w3,
    multi_grid_generate grid_generate 3 (World start ∅) = (Ok [Run.R1; Run.R2], w1)
    ∧ @ligand_split Run.common lib false w1
      = (Ok ["/work/ligands/0-A.mae"; "/work/ligands/1-B.mae"; "/work/ligands/2-C.mae"], w2)
    ∧ @creat_mapping Run.common "SP" w2 = (Ok tt, w3)
    ∧ (length <$> Console.mapping (self w3)) = Some 6.
Proof.
  intros grid_generate st lib start.
  destruct (multi_grid_generate grid_generate 3 (World start ∅)) as [r1 w1] eqn:Hgrid.
  assert (r1 = Ok [Run.R1; Run.R2]) as -> by (vm_compute in Hgrid; by injection Hgrid as <- _).
  destruct (@ligand_split Run.common lib false w1) as [r2 w2] eqn:Hsplit.
  assert (r2 = Ok ["/work/ligands/0-A.mae"; "/work/ligands/1-B.mae"; "/work/ligands/2-C.mae"]
          ∧ files w2 !! "/work/result/docking_failed_SP.csv" = None) as [-> Hnone].
  { vm_compute in Hgrid. injection Hgrid as <-.
    vm_compute in Hsplit. by injection Hsplit as <- <-. }
  destruct (@stages_build_full_mapping Run.common grid_generate lib false "SP" 3
              _ _ _ _ _ Hgrid Hsplit Hnone) as (w3 & Hmap & Hstored & Hlen & _).
  exists w1, w2, w3. split_and!; [done|done|done|].
  rewrite Hstored. cbn [fmap option_fmap option_map]. by rewrite Hlen.
Defined.

(** ** Downloading a structure *)

(** X20.  What a call of [download_pdb] can do.  It sends at most one
    request, to [https://files.rcsb.org/download/<pdbid>.pdb], and
    none when the file is there and [overwrite] is off.  It touches no
    file but [<save_dir>/<pdbid>.pdb]; when it raises, on a status
    other than 200 or inside [requests.get], that file is left as it
    was too, also with [overwrite] on.  When it returns the file
    exists, so that a second call without [overwrite] returns at once,
    with no request and no change. *)
Theorem download_pdb_effect (requests_get : string → result Response.t) (cwd : string)
    (pdbid : string) (save_dir : option string) (overwrite : bool)
    (st st' : net) (out : result unit) :
  download_pdb requests_get cwd pdbid save_dir overwrite st = (out, st') →
  let downloaded_file := Str.path_join (default cwd save_dir) (pdbid +:+ ".pdb") in
  let url := "https://files.rcsb.org/download/" +:+ pdbid +:+ ".pdb" in
  (requested st' = requested st ∨ requested st' = requested st ++ [url])
  ∧ (is_Some (disk st !! downloaded_file) → overwrite = false →
     out = Ok tt ∧ st' = st)
  ∧ (∀ p, p ≠ downloaded_file → disk st' !! p = disk st !! p)
  ∧ (out ≠ Ok tt → disk st' = disk st)
  ∧ (out = Ok tt →
     is_Some (disk st' !! downloaded_file)
     ∧ download_pdb requests_get cwd pdbid save_dir false st' = (Ok tt, st')).
Proof.
  intros Hrun downloaded_file url.
  assert (∀ s, is_Some (disk s !! downloaded_file) →
               download_pdb requests_get cwd pdbid save_dir false s = (Ok tt, s)) as Hcached.
  { intros s Hs. unfold download_pdb, mbind, M_bind, get. fold downloaded_file.
    by rewrite bool_decide_eq_true_2 by done. }
  unfold download_pdb, mbind, M_bind, get, modify, lift, raise in Hrun.
  fold downloaded_file url in Hrun. destruct st as [fs urls]. cbn [disk requested] in *.
  destruct (bool_decide (is_Some (fs !! downloaded_file)) && negb overwrite) eqn:Hskip.
  { injection Hrun as <- <-. cbn [disk requested].
    apply andb_true_iff in Hskip as [Hthere%bool_decide_eq_true _].
    split_and!; try done; [by left|]. intros _. split; [done|]. by apply Hcached. }
  assert (is_Some (fs !! downloaded_file) → overwrite = false → False) as Hfresh.
  { intros Hthere ->. by rewrite bool_decide_eq_true_2 in Hskip by done. }
  destruct (requests_get url) as [response|e].
  - destruct (bool_decide (Response.status_code response ≠ 200%Z)).
    + injection Hrun as <- <-. cbn [disk requested].
      split_and!; try done; [by right|by intros ??; destruct Hfresh].
    + injection Hrun as <- <-. cbn [disk requested].
      split_and!; [by right|by intros ??; destruct Hfresh| |done|].
      * intros p Hp. by rewrite lookup_insert_ne.
      * intros _. assert (is_Some (<[downloaded_file := Response.text response]> fs
                                     !! downloaded_file)) as Hnow.
        { rewrite lookup_insert_eq. by eexists. }
        split; [done|]. by apply Hcached.
  - injection Hrun as <- <-. cbn [disk requested].
    split_and!; try done; [by right|by intros ??; destruct Hfresh].
Qed.

Lemma download_pdb_effect_witness :
  let requests_get (url : string) : result Response.t :=
    if decide (url = "https://files.rcsb.org/download/1FBY.pdb")
    then Ok (Response.mk 200 "HEADER 1FBY")
    else Ok (Response.mk 404 "Not Found") in
  let st := Net ∅ [] in
  let st' := Net {[ "/work/pdb/1FBY.pdb" := "HEADER 1FBY" ]}
               ["https://files.rcsb.org/download/1FBY.pdb"] in
  download_pdb requests_get "/work" "1FBY" (Some "/work/pdb") false st = (Ok tt, st')
  ∧ download_pdb requests_get "/work" "1FBY" (Some "/work/pdb") false st' = (Ok tt, st').
Proof.
  intros requests_get st st'.
  assert (download_pdb requests_get "/work" "1FBY" (Some "/work/pdb") false st = (Ok tt, st'))
    as Hrun by by vm_compute.
  split; [exact Hrun|].
  by destruct (download_pdb_effect requests_get "/work" "1FBY" (Some "/work/pdb") false
                 st st' (Ok tt) Hrun) as (_ & _ & _ & _ & Hagain);
    destruct (Hagain eq_refl) as [_ Hsame].
Defined.

Example download_pdb_not_found :
  download_pdb (λ _, Ok (Response.mk 404 "Not Found")) "/work" "XXXX" None true
    (Net {[ "/work/XXXX.pdb" := "old" ]} [])
  = (Raise (RuntimeError "Failed to download XXXX.pdb"),
     Net {[ "/work/XXXX.pdb" := "old" ]} ["https://files.rcsb.org/download/XXXX.pdb"]).
Proof. by vm_compute. Qed.

(** ** Looking for installed programs *)

Lemma subprocess_check_run (check : (string → Z) → string → M shell bool)
    (suffix : string) (returncode : string → Z) (path : string) (sh : shell) :
  (check = _check_execu_help ∧ suffix = " -h")
  ∨ (check = _check_execu_version ∧ suffix = " --version") →
  check returncode path sh
  = (Ok (bool_decide (returncode (path +:+ suffix) = 0%Z)),
     Shell (commands sh ++ [path +:+ suffix])
       (infos sh ++ if bool_decide (returncode (path +:+ suffix) = 0%Z) then []
                    else [not_installed path])).
Proof.
  intros [[-> ->]|[-> ->]];
    unfold _check_execu_help, _check_execu_version, subprocess_run, logger_info,
      mbind, M_bind, modify, mret, M_ret;
    destruct sh as [cs msgs]; cbn [commands infos];
    destruct (bool_decide _); by rewrite ?app_nil_r.
Qed.

Lemma is_amber_available_eval (returncode : string → Z) (sh : shell) :
  let ok (command : string) := bool_decide (returncode command = 0%Z) in
  let record (c : string * string) := if ok c.2 then [] else [not_installed c.1] in
  is_amber_available returncode sh
  = (Ok (forallb (λ c, ok c.2) amber_checks),
     Shell (commands sh ++ map snd amber_checks)
       (infos sh ++ flat_map record amber_checks)).
Proof.
  intros ok record. unfold is_amber_available, mbind, M_bind.
  rewrite (subprocess_check_run _check_execu_help " -h") by (by left).
  rewrite (subprocess_check_run _check_execu_version " --version") by (by right).
  rewrite (subprocess_check_run _check_execu_version " --version") by (by right).
  rewrite (subprocess_check_run _check_execu_version " --version") by (by right).
  rewrite (subprocess_check_run _check_execu_version " --version") by (by right).
  rewrite (subprocess_check_run _check_execu_help " -h") by (by left).
  change ("tleap" +:+ " -h") with "tleap -h".
  change ("sander" +:+ " --version") with "sander --version".
  change ("cpptraj" +:+ " --version") with "cpptraj --version".
  change ("parmed" +:+ " --version") with "parmed --version".
  change ("pdb4amber" +:+ " --version") with "pdb4amber --version".
  change ("antechamber" +:+ " -h") with "antechamber -h".
  cbn [commands infos]. unfold amber_checks.
  cbn [forallb flat_map map fst snd id]. subst ok record. cbn beta.
  rewrite <- !app_assoc, app_nil_r. cbn [app].
  cbn [fst snd].
  by destruct (bool_decide (returncode "tleap -h" = 0%Z)),
    (bool_decide (returncode "sander --version" = 0%Z)),
    (bool_decide (returncode "cpptraj --version" = 0%Z)),
    (bool_decide (returncode "parmed --version" = 0%Z)),
    (bool_decide (returncode "pdb4amber --version" = 0%Z)),
    (bool_decide (returncode "antechamber -h" = 0%Z)).
Qed.

(** X21.  [is_amber_available] runs all six commands, in the order
    written, whatever their outcome: a missing [tleap] does not keep it
    from trying the other five.  It logs one INFO record for each
    program whose command does not exit with status 0, and it answers
    [True] exactly when all six exit with status 0. *)
Theorem is_amber_available_runs_all (returncode : string → Z) (sh : shell) :
  ∃ answer sh',
    is_amber_available returncode sh = (Ok answer, sh')
    ∧ commands sh' = commands sh ++ map snd amber_checks
    ∧ infos sh'
      = infos sh ++ map (λ c, not_installed c.1)
                      (filter (λ c, returncode c.2 ≠ 0%Z) amber_checks)
    ∧ (answer = true ↔ ∀ c, c ∈ amber_checks → returncode c.2 = 0%Z).
Proof.
  eexists _, _. split; [apply is_amber_available_eval|]. cbn [commands infos].
  split_and!.
  - done.
  - f_equal. induction amber_checks as [|c checks IH]; [done|].
    cbn [flat_map]. rewrite filter_cons, IH.
    destruct (decide (returncode c.2 ≠ 0%Z)) as [Hne|Heq].
    + by rewrite bool_decide_eq_false_2 by done.
    + apply dec_stable in Heq. by rewrite bool_decide_eq_true_2 by done.
  - rewrite <- Forall_forall. induction amber_checks as [|c checks IH].
    + split; [by constructor|done].
    + cbn [forallb]. rewrite Forall_cons, <- IH, andb_true_iff, bool_decide_eq_true.
      done.
Qed.

Example is_amber_available_without_tleap :
  let returncode (command : string) : Z :=
    if decide (command = "tleap -h") then 127%Z else 0%Z in
  is_amber_available returncode (Shell [] [])
  = (Ok false,
     Shell ["tleap -h"; "sander --version"; "cpptraj --version"; "parmed --version";
            "pdb4amber --version"; "antechamber -h"]
       [not_installed "tleap"]).
Proof. by vm_compute. Qed.
